(** * Cross-validation parameter search of [SparseModelingImager]

    A shallow embedding of [prism/core/imager.py]: the typed property
    setters, the cross-validation session ([initializecv], [finalizecv],
    [computegridmse]) and the parameter search [cvforgridvis], followed by
    the properties of the search that the specification states.

    Python floats are modelled by their values as canonical rationals
    ([Qc]): the search only compares, sorts and copies them.  The state of
    the interpreter that the search can observe is the imager object, the
    file store and the sequence of calls made to the external
    collaborators (solver, error evaluator, plotter). *)

From Stdlib Require Import QArith Qcanon ZArith.
From stdpp Require Import base option list sorting strings pretty gmap.

Local Open Scope Z_scope.
Local Open Scope string_scope.
Local Open Scope list_scope.

(** ** Python values *)

(** Array data held by the storage classes of [datacontainer]. *)
Definition ndarray := list Qc.

(** The classes that [type(value)] can report.  [UserClass] stands for
    every class not named here, subclasses of the storage classes
    included. *)
Inductive pytype :=
  | NoneType
  | float
  | str
  | GriddedVisibilityStorage
  | ResultingImageStorage
  | UVGridConfig
  | VisibilitySubsetGenerator
  | UserClass (name : string).

Global Instance pytype_eq_dec : EqDecision pytype.
Proof. solve_decision. Defined.

Inductive pyval :=
  | PyNone
  | PyFloat (x : Qc)
  | PyStr (s : string)
  | PyInst (cls : pytype) (data : ndarray)
  | PyVisSet (griddedvis : pyval) (num_fold : Z).

Global Instance pyval_eq_dec : EqDecision pyval.
Proof.
  refine (fix go (x y : pyval) {struct x} : Decision (x = y) :=
    match x, y with
    | PyNone, PyNone => left _
    | PyFloat a, PyFloat b => cast_if (decide (a = b))
    | PyStr a, PyStr b => cast_if (decide (a = b))
    | PyInst c a, PyInst d b => cast_if_and (decide (c = d)) (decide (a = b))
    | PyVisSet g n, PyVisSet h m => cast_if_and (go g h) (decide (n = m))
    | _, _ => right _
    end); abstract congruence.
Defined.

(** [type(value)] *)
Definition type_of (v : pyval) : pytype :=
  match v with
  | PyNone => NoneType
  | PyFloat _ => float
  | PyStr _ => str
  | PyInst cls _ => cls
  | PyVisSet _ _ => VisibilitySubsetGenerator
  end.

(** [value is None] *)
Definition is_None (v : pyval) : bool :=
  match v with PyNone => true | _ => false end.

(** A float literal [n/d]. *)
Definition flt (n : Z) (d : positive) : Qc := Q2Qc (n # d).

(** [x <= y] on floats. *)
Definition Qc_leb (x y : Qc) : bool := Qle_bool x y.

(** [x < y] on floats. *)
Definition Qc_ltb (x y : Qc) : bool := negb (Qle_bool y x).

(** [int(x)]: truncation toward zero. *)
Definition int_of_float (x : Qc) : Z := Z.quot (Qnum x) (Z.pos (Qden x)).

(** ** Exceptions, files, collaborator calls *)

Inductive exn :=
  | NameError (name : string)
  | TypeError (msg : string)
  | ValueError (msg : string)
  | RuntimeError (msg : string)
  | AssertionError
  | AttributeError (attr : string)
  | IndexError
  | OSError (path : string)
  | ShutilError (path : string)
  | SolverError (msg : string)
  | ZeroDivisionError (msg : string)
  | ConfigurationError (msg : string).

Inductive result (A : Type) :=
  | Ok (a : A)
  | Raise (e : exn).
Arguments Ok {A} a.
Arguments Raise {A} e.

(** [paramcontainer.MfistaParamContainer] *)
Record MfistaParamContainer := {
  p_l1 : pyval;
  p_ltsv : pyval;
  p_maxiter : Z;
  p_eps : Qc;
  p_clean_box : option ndarray
}.

(** The state of the solver object: its current parameter set and the
    initial image it keeps between runs. *)
Record solver_state := {
  s_mfistaparam : MfistaParamContainer;
  s_initialimage : option ndarray
}.

Inductive file :=
  | Pickled (obj : pyval)
  | Text (lines : list string)
  | Figure.

(** Calls that leave the interpreter, in the order they are made. *)
Inductive event :=
  | EvSolve (param : MfistaParamContainer) (vis : pyval)
            (storeinitialimage overwriteinitialimage : bool)
  | EvEvaluate (fold : nat)
  | EvWrite (path : string)
  | EvCopy (src dst : string)
  | EvRemove (path : string)
  | EvPlotter (nv nh : nat)
  | EvPlotImage (row column : nat) (mse : Qc)
  | EvMarkBest (row column : nat)
  | EvDraw
  | EvSaveFig (figfile : string).

(** ** The imager object and the interpreter state *)

(** Instance attributes; [None] is an attribute that has not been set. *)
Record SparseModelingImager := {
  _griddedvis : option pyval;
  _imagearray : option pyval;
  _uvgridconfig : option pyval;
  visset : option pyval;
  mfistaparam : option MfistaParamContainer;
  solver : solver_state
}.

Record world := {
  self : SparseModelingImager;
  fs : gmap string file;
  trace : list event
}.

Definition set_self (o : SparseModelingImager) (w : world) : world :=
  {| self := o; fs := fs w; trace := trace w |}.
Definition set_fs (m : gmap string file) (w : world) : world :=
  {| self := self w; fs := m; trace := trace w |}.
Definition add_event (e : event) (w : world) : world :=
  {| self := self w; fs := fs w; trace := trace w ++ [e] |}.

(** ** State and exception monad *)

Definition M (A : Type) : Type := world -> result A * world.

Definition ret {A} (a : A) : M A := fun w => (Ok a, w).
Definition raise {A} (e : exn) : M A := fun w => (Raise e, w).
Definition bind {A B} (m : M A) (k : A -> M B) : M B :=
  fun w => match m w with
           | (Ok a, w') => k a w'
           | (Raise e, w') => (Raise e, w')
           end.
Definition get_self : M SparseModelingImager := fun w => (Ok (self w), w).
Definition put_self (o : SparseModelingImager) : M unit :=
  fun w => (Ok tt, set_self o w).
Definition get_fs : M (gmap string file) := fun w => (Ok (fs w), w).
Definition put_fs (m : gmap string file) : M unit :=
  fun w => (Ok tt, set_fs m w).
Definition emit (e : event) : M unit := fun w => (Ok tt, add_event e w).

Declare Scope py_scope.
Delimit Scope py_scope with py.
Notation "x <- m ;; k" := (bind m (fun x => k))
  (at level 100, m at next level, right associativity) : py_scope.
Notation "m ;; k" := (bind m (fun _ => k))
  (at level 100, right associativity) : py_scope.
Local Open Scope py_scope.

(** [assert b] *)
Definition assert (b : bool) : M unit :=
  if b then ret tt else raise AssertionError.

(** A [for] loop over [l] that threads the loop-carried variables. *)
Fixpoint for_each {A S} (l : list A) (body : A -> S -> M S) (acc : S) : M S :=
  match l with
  | [] => ret acc
  | x :: l' => (acc' <- body x acc ;; for_each l' body acc')
  end.

(** ** External collaborators *)

(** The numerical code the search calls but does not contain: the MFISTA
    kernel behind [solver.solve], the fold views and the error evaluator
    of [cv], [math.log10], and the text of a formatted float.  The search
    is verified for every choice of them. *)
Class Collaborators := {
  solve_kernel : MfistaParamContainer -> pyval -> option ndarray -> result ndarray;
  generate_subset : pyval -> pyval -> nat -> pyval * pyval;
  get_mean_mse : list (pyval * ndarray) -> pyval -> result Qc;
  math_log10 : Qc -> Qc;
  format_float : Qc -> string
}.

(** ** numpy helpers *)

Module numpy.

Inductive array :=
  | FloatArray (xs : list Qc)
  | StrArray (xs : list string)
  | ObjectArray (xs : list pyval).

Definition is_float (v : pyval) : bool :=
  match v with PyFloat _ => true | _ => false end.
Definition is_scalar (v : pyval) : bool :=
  match v with PyFloat _ | PyStr _ => true | _ => false end.

Definition floats (l : list pyval) : list Qc :=
  omap (fun v => match v with PyFloat x => Some x | _ => None end) l.

Definition strings `{Collaborators} (l : list pyval) : list string :=
  omap (fun v => match v with
                 | PyFloat x => Some (format_float x)
                 | PyStr s => Some s
                 | _ => None
                 end) l.

(** [numpy.asarray]: floats give a float array, floats mixed with
    strings a string array, anything else an object array. *)
Definition asarray `{Collaborators} (l : list pyval) : array :=
  if forallb is_float l then FloatArray (floats l)
  else if forallb is_scalar l then StrArray (strings l)
  else ObjectArray l.

(** [str(a.dtype)] *)
Definition dtype (a : array) : string :=
  match a with
  | FloatArray _ => "float64"
  | StrArray _ => "|S32"
  | ObjectArray _ => "object"
  end.

Definition len (a : array) : nat :=
  match a with
  | FloatArray xs => length xs
  | StrArray xs => length xs
  | ObjectArray xs => length xs
  end.

Section argsort.
Context {A : Type} (leb : A -> A -> bool).

Fixpoint insert_by (x : nat * A) (l : list (nat * A)) : list (nat * A) :=
  match l with
  | [] => [x]
  | y :: l' => if leb x.2 y.2 then x :: y :: l' else y :: insert_by x l'
  end.

Definition enumerate (xs : list A) : list (nat * A) :=
  zip (seq 0 (length xs)) xs.

(** Indices that sort [xs] in ascending order. *)
Definition argsort (xs : list A) : list nat :=
  (foldr insert_by [] (enumerate xs)).*1.

(** [xs[idx]] for an index array [idx]. *)
Definition take (xs : list A) (idx : list nat) : list A :=
  omap (fun i => xs !! i) idx.
End argsort.

(** [a[numpy.argsort(a)]], as Python values. *)
Definition sorted (a : array) : list pyval :=
  match a with
  | FloatArray xs => PyFloat <$> take xs (argsort Qc_leb xs)
  | StrArray xs => PyStr <$> take xs (argsort String.leb xs)
  | ObjectArray xs => xs
  end.

Fixpoint argmin_from (best_i : nat) (best : Qc) (i : nat) (l : list Qc) : nat :=
  match l with
  | [] => best_i
  | x :: l' =>
      if Qc_ltb x best then argmin_from i x (S i) l'
      else argmin_from best_i best (S i) l'
  end.

(** [numpy.argmin]: the first index of the minimum. *)
Definition argmin (l : list Qc) : M nat :=
  match l with
  | [] => raise (ValueError "attempt to get argmin of an empty sequence")
  | x :: l' => ret (argmin_from 0 x 1 l')
  end.

(** [numpy.where(l == v)[0][0]] *)
Fixpoint where_first (v : pyval) (l : list pyval) (i : nat) : M nat :=
  match l with
  | [] => raise IndexError
  | x :: l' => if decide (x = v) then ret i else where_first v l' (S i)
  end.

End numpy.

(** [l[i]] *)
Definition getitem {A} (l : list A) (i : nat) : M A :=
  match l !! i with
  | Some x => ret x
  | None => raise IndexError
  end.

(** ** Files *)

Module os.

Definition exists_ (path : string) : M bool :=
  m <- get_fs ;; ret (bool_decide (is_Some (m !! path))).

Definition remove (path : string) : M unit :=
  m <- get_fs ;;
  match m !! path with
  | Some _ => emit (EvRemove path) ;; put_fs (delete path m)
  | None => raise (OSError path)
  end.

End os.

Module shutil.

Definition copy2 (src dst : string) : M unit :=
  m <- get_fs ;;
  match m !! src with
  | None => raise (OSError src)
  | Some content =>
      if decide (src = dst) then raise (ShutilError src)
      else (emit (EvCopy src dst) ;; put_fs (<[dst := content]> m))
  end.

End shutil.

(** An open text stream: a path of the store, or the null device. *)
Definition stream := option string.

(** [open(path, 'w')] *)
Definition open_w (path : string) : M stream :=
  m <- get_fs ;; emit (EvWrite path) ;; put_fs (<[path := Text []]> m) ;;
  ret (Some path).

(** [open(os.devnull, 'w')] *)
Definition open_devnull : M stream := ret None.

Definition append_line (line : string) (c : file) : file :=
  match c with
  | Text lines => Text (lines ++ [line])
  | Pickled obj => Pickled obj
  | Figure => Figure
  end.

(** [print(line, file=f)] *)
Definition print_to (f : stream) (line : string) : M unit :=
  match f with
  | Some path => (m <- get_fs ;; put_fs (alter (append_line line) path m))
  | None => ret tt
  end.

(** ** The summary plot *)

(** [CVPlotter]: the grid of trial images drawn with [pylab].  The
    drawing itself is left to [pylab]; what the search can observe of it
    is the order of the calls, the file that [savefig] writes, and the
    exception of the constructor. *)
Module CVPlotter.

(** [CVPlotter(nv, nh, L1_list, Ltsv_list)].  The panel size is computed
    first, as [total_width / float(self.nh)] and then
    [total_height / float(self.nv)]: a float division, which raises
    [ZeroDivisionError] for a zero divisor. *)
Definition init (nv nh : nat) : M unit :=
  if bool_decide (nh = 0%nat) then
    raise (ZeroDivisionError "float division by zero")
  else if bool_decide (nv = 0%nat) then
    raise (ZeroDivisionError "float division by zero")
  else emit (EvPlotter nv nh).

Definition plotimage (row column : nat) (mse : Qc) : M unit :=
  emit (EvPlotImage row column mse).

Definition mark_bestimage (row column : nat) : M unit :=
  emit (EvMarkBest row column).

Definition draw : M unit := emit EvDraw.

(** [pl.savefig(figfile)] writes the figure to the file [figfile]. *)
Definition savefig (figfile : string) : M unit :=
  m <- get_fs ;; emit (EvSaveFig figfile) ;; put_fs (<[figfile := Figure]> m).

End CVPlotter.

(** ** The imager *)

Module Imager.

(** *** Property accessors *)

(** [getattr(self, '_griddedvis', None)] and its two siblings. *)
Definition griddedvis (o : SparseModelingImager) : pyval :=
  default PyNone (_griddedvis o).
Definition imagearray (o : SparseModelingImager) : pyval :=
  default PyNone (_imagearray o).
Definition uvgridconfig (o : SparseModelingImager) : pyval :=
  default PyNone (_uvgridconfig o).

Definition with_griddedvis (v : pyval) (o : SparseModelingImager) :=
  {| _griddedvis := Some v; _imagearray := _imagearray o;
     _uvgridconfig := _uvgridconfig o; visset := visset o;
     mfistaparam := mfistaparam o; solver := solver o |}.
Definition with_imagearray (v : pyval) (o : SparseModelingImager) :=
  {| _griddedvis := _griddedvis o; _imagearray := Some v;
     _uvgridconfig := _uvgridconfig o; visset := visset o;
     mfistaparam := mfistaparam o; solver := solver o |}.
Definition with_uvgridconfig (v : pyval) (o : SparseModelingImager) :=
  {| _griddedvis := _griddedvis o; _imagearray := _imagearray o;
     _uvgridconfig := Some v; visset := visset o;
     mfistaparam := mfistaparam o; solver := solver o |}.
Definition with_visset (v : pyval) (o : SparseModelingImager) :=
  {| _griddedvis := _griddedvis o; _imagearray := _imagearray o;
     _uvgridconfig := _uvgridconfig o; visset := Some v;
     mfistaparam := mfistaparam o; solver := solver o |}.
Definition with_mfistaparam (p : MfistaParamContainer) (o : SparseModelingImager) :=
  {| _griddedvis := _griddedvis o; _imagearray := _imagearray o;
     _uvgridconfig := _uvgridconfig o; visset := visset o;
     mfistaparam := Some p; solver := solver o |}.
Definition with_solver (s : solver_state) (o : SparseModelingImager) :=
  {| _griddedvis := _griddedvis o; _imagearray := _imagearray o;
     _uvgridconfig := _uvgridconfig o; visset := visset o;
     mfistaparam := mfistaparam o; solver := s |}.

(** The three setters share one shape: [None] is stored, a value whose
    type is exactly the storage class is stored, anything else raises. *)
Definition typed_setter (cls : pytype) (msg : string)
    (store : pyval -> SparseModelingImager -> SparseModelingImager)
    (value : pyval) : M unit :=
  if is_None value then
    (o <- get_self ;; put_self (store PyNone o))
  else if decide (type_of value = cls) then
    (o <- get_self ;; put_self (store value o))
  else raise (TypeError msg).

Definition set_griddedvis : pyval -> M unit :=
  typed_setter GriddedVisibilityStorage
    "Given value is not an instance of GriddedVisibilityStorage"
    with_griddedvis.
Definition set_imagearray : pyval -> M unit :=
  typed_setter ResultingImageStorage
    "Given value is not an instance of ResultingImageStorage"
    with_imagearray.
Definition set_uvgridconfig : pyval -> M unit :=
  typed_setter UVGridConfig
    "Given value is not an instance of UVGridConfig"
    with_uvgridconfig.

(** [imagesuffix] *)
Definition imagesuffix : string := "pickle".

(** *** Cross-validation session *)

(** Modelled from the spec: [cv.VisibilitySubsetGenerator] is not part of
    the sources; the fold partitioner of the specification keeps the store
    it partitions and the fold count [K] it was built with, which
    [computegridmse] reads back as [visset.num_fold].  It requires
    [K >= 1] and fails with [ConfigurationError] when [K] exceeds the
    number of samples of the store. *)
Definition num_samples (gv : pyval) : Z :=
  match gv with
  | PyInst _ data => Z.of_nat (length data)
  | _ => 0
  end.

Definition new_VisibilitySubsetGenerator (gv : pyval) (num_fold : Z) : M pyval :=
  if (num_fold <? 1)%Z then
    raise (ConfigurationError "the number of folds must be at least 1")
  else if (num_samples gv <? num_fold)%Z then
    raise (ConfigurationError "more folds than samples")
  else ret (PyVisSet gv num_fold).

Definition initializecv (num_fold : Z) : M unit :=
  o <- get_self ;;
  assert (negb (is_None (griddedvis o))) ;;
  match visset o with
  | None | Some PyNone =>
      g <- new_VisibilitySubsetGenerator (griddedvis o) num_fold ;;
      put_self (with_visset g o)
  | Some _ => ret tt
  end.

Definition finalizecv : M unit :=
  o <- get_self ;; put_self (with_visset PyNone o).


Section methods.
Context `{Collaborators}.

(** *** The solver *)

(** Modelled from the spec: [mfista.SolverFactory] and the solver class
    are not part of the sources.  [solve] runs the kernel on the given
    visibility, seeded with the stored initial image, and keeps the result
    as the initial image of the next run when [storeinitialimage] is set
    and either no image is stored yet or [overwriteinitialimage] is set. *)
Definition solver_solve (vis : pyval)
    (storeinitialimage overwriteinitialimage : bool) : M ndarray :=
  o <- get_self ;;
  let s := solver o in
  emit (EvSolve (s_mfistaparam s) vis storeinitialimage overwriteinitialimage) ;;
  match solve_kernel (s_mfistaparam s) vis (s_initialimage s) with
  | Raise e => raise e
  | Ok arr =>
      let keep :=
        storeinitialimage
        && (overwriteinitialimage || bool_decide (s_initialimage s = None)) in
      put_self (with_solver
                  {| s_mfistaparam := s_mfistaparam s;
                     s_initialimage :=
                       if keep then Some arr else s_initialimage s |} o) ;;
      ret arr
  end.

Definition _mfista (mfistaparam : MfistaParamContainer) (griddedvis : pyval)
    (storeinitialimage overwriteinitialimage : bool) : M ndarray :=
  assert (negb (is_None griddedvis)) ;;
  o <- get_self ;;
  put_self (with_solver {| s_mfistaparam := mfistaparam;
                           s_initialimage := s_initialimage (solver o) |} o) ;;
  solver_solve griddedvis storeinitialimage overwriteinitialimage.

Definition mfista (l1 ltsv : pyval) (maxiter : Z) (eps : Qc)
    (clean_box : option ndarray)
    (storeinitialimage overwriteinitialimage : bool) : M unit :=
  let p := {| p_l1 := l1; p_ltsv := ltsv; p_maxiter := maxiter;
              p_eps := eps; p_clean_box := clean_box |} in
  o <- get_self ;;
  put_self (with_mfistaparam p o) ;;
  o <- get_self ;;
  arr <- _mfista p (griddedvis o) storeinitialimage overwriteinitialimage ;;
  set_imagearray (PyInst ResultingImageStorage arr).

(** *** Image files *)

Definition exportimage (imagename : string) (overwrite : bool) : M unit :=
  o <- get_self ;;
  if is_None (imagearray o) then
    raise (RuntimeError "You don't have an image array!")
  else
    present <- os.exists_ imagename ;;
    if present && negb overwrite then
      raise (RuntimeError "Cannot overwrite existing file")
    else
      m <- get_fs ;;
      emit (EvWrite imagename) ;;
      put_fs (<[imagename := Pickled (imagearray o)]> m).

Definition getimage (imagename : string) : M pyval :=
  present <- os.exists_ imagename ;;
  if negb present then raise (RuntimeError "image does not exist")
  else
    m <- get_fs ;;
    match m !! imagename with
    | Some (Pickled data) => ret data
    | _ => raise (ValueError "could not unpickle")
    end.

(** *** Mean square error of one parameter pair *)

(** The fold count read as [self.visset.num_fold]. *)
Definition visset_num_fold (o : SparseModelingImager) : M Z :=
  match visset o with
  | Some (PyVisSet _ n) => ret n
  | _ => raise (AttributeError "num_fold")
  end.

(** The body of the loop over the folds: reconstruct from the active part
    of fold [i], then accumulate the error on the part held out. *)
Definition fold_trial (mfistaparam : MfistaParamContainer)
    (subset_handler : pyval * pyval) (i : nat)
    (acc : list (pyval * ndarray)) : M (list (pyval * ndarray)) :=
  (* pick up subset for cross validation *)
  let subset := generate_subset subset_handler.1 subset_handler.2 i in
  (* run MFISTA *)
  imagearray <- _mfista mfistaparam subset.1 false false ;;
  (* evaluate MSE (Mean Square Error) *)
  emit (EvEvaluate i) ;;
  ret (acc ++ [(subset.2, imagearray)]).

Definition computegridmse (l1 ltsv : pyval) (maxiter : Z) (eps : Qc)
    (clean_box : option ndarray) : M Qc :=
  let mfistaparam := {| p_l1 := l1; p_ltsv := ltsv; p_maxiter := maxiter;
                        p_eps := eps; p_clean_box := clean_box |} in
  o <- get_self ;;
  assert (negb (is_None (griddedvis o))) ;;
  num_fold <- visset_num_fold o ;;
  if (num_fold <=? 1)%Z then
    (* CV is disabled *)
    ret (flt (-1) 1)
  else
    let subset_handler := (default PyNone (visset o), uvgridconfig o) in
    folds <- for_each (seq 0 (Z.to_nat num_fold))
               (fold_trial mfistaparam subset_handler) [] ;;
    o <- get_self ;;
    match get_mean_mse folds (uvgridconfig o) with
    | Ok mean_mse => ret mean_mse
    | Raise e => raise e
    end.

(** *** The parameter search *)

Record cv_args := {
  l1_list : list pyval;
  ltsv_list : list pyval;
  num_fold : Z;
  imageprefix : string;
  imagepolicy : string;
  summarize : bool;
  figfile : option string;
  datafile : option string;
  maxiter : Z;
  eps : Qc;
  clean_box : option ndarray
}.

(** The four result lists filled by the sweep. *)
Record results := {
  result_L1 : list pyval;
  result_Ltsv : list pyval;
  result_mse : list Qc;
  result_image : list string
}.

Definition no_results : results :=
  {| result_L1 := []; result_Ltsv := []; result_mse := []; result_image := [] |}.

(** [math.log10(x)] *)
Definition log10 (x : pyval) : M Qc :=
  match x with
  | PyFloat q =>
      if Qc_ltb (flt 0 1) q then ret (math_log10 q)
      else raise (ValueError "math domain error")
  | _ => raise (TypeError "a float is required")
  end.

(** ['{0}'.format(x)] *)
Definition format (x : pyval) : string :=
  match x with
  | PyFloat q => format_float q
  | PyStr s => s
  | PyNone => "None"
  | _ => "<object>"
  end.

(** ['L1_{0}_Ltsv_{1}.{2}'.format(e1, e2, suffix)] *)
Definition format_imagename (e1 e2 : Z) (suffix : string) : string :=
  "L1_" +:+ pretty e1 +:+ "_Ltsv_" +:+ pretty e2 +:+ "." +:+ suffix.

(** ['{0}, {1}, {2}'.format(L1, Ltsv, mse)] *)
Definition format_dataline (L1 Ltsv : pyval) (mse : Qc) : string :=
  format L1 +:+ ", " +:+ format Ltsv +:+ ", " +:+ format_float mse.

(** The body of the inner loop: one trial at [(L1, Ltsv)]. *)
Definition trial (a : cv_args) (f : stream) (j : nat) (Ltsv : pyval)
    (overwrite_initial : bool) (i : nat) (L1 : pyval) (r : results) : M results :=
  let r := {| result_L1 := result_L1 r ++ [L1];
              result_Ltsv := result_Ltsv r ++ [Ltsv];
              result_mse := result_mse r;
              result_image := result_image r |} in
  (* get full visibility image first *)
  e1 <- log10 L1 ;;
  e2 <- log10 Ltsv ;;
  let imagename :=
    format_imagename (int_of_float e1) (int_of_float e2) imagesuffix in
  mfista L1 Ltsv (maxiter a) (eps a) (clean_box a) true overwrite_initial ;;
  exportimage imagename true ;;
  let r := {| result_L1 := result_L1 r; result_Ltsv := result_Ltsv r;
              result_mse := result_mse r;
              result_image := result_image r ++ [imagename] |} in
  (* then evaluate MSE *)
  mse <- computegridmse L1 Ltsv (maxiter a) (eps a) (clean_box a) ;;
  let r := {| result_L1 := result_L1 r; result_Ltsv := result_Ltsv r;
              result_mse := result_mse r ++ [mse];
              result_image := result_image r |} in
  print_to f (format_dataline L1 Ltsv mse) ;;
  (if summarize a then
     (imagearray <- getimage imagename ;; CVPlotter.plotimage i j mse)
   else ret tt) ;;
  ret r.

(** The double loop: [Ltsv] ascending outside, [L1] descending inside. *)
Definition sweep (a : cv_args) (f : stream)
    (sorted_l1_list sorted_ltsv_list : list pyval) : M results :=
  let num_L1 := length sorted_l1_list in
  let num_Ltsv := length sorted_ltsv_list in
  for_each (seq 0 num_Ltsv)
    (fun j r =>
       Ltsv <- getitem sorted_ltsv_list j ;;
       (* trick to update initial image when Ltsv is changed *)
       let overwrite_initial := true in
       for_each (reverse (seq 0 num_L1))
         (fun i r =>
            L1 <- getitem sorted_l1_list i ;;
            trial a f j Ltsv overwrite_initial i L1 r)
         r)
    no_results.

(** [raise ArgumentError(msg)].  The module neither defines nor imports
    the name [ArgumentError], so evaluating the [raise] statement raises
    [NameError] for that name. *)
Definition raise_ArgumentError {A} (msg : string) : M A :=
  raise (NameError "ArgumentError").

(** The plotter is [CVPlotter] when [summarize] is set and [NullPlotter],
    whose methods do nothing, otherwise.  A call is named by the event
    that the method of [CVPlotter] leaves in the trace. *)
Definition plotter (a : cv_args) (call : event) : M unit :=
  if summarize a then
    match call with
    | EvPlotter nv nh => CVPlotter.init nv nh
    | EvPlotImage row column mse => CVPlotter.plotimage row column mse
    | EvMarkBest row column => CVPlotter.mark_bestimage row column
    | EvDraw => CVPlotter.draw
    | EvSaveFig figfile => CVPlotter.savefig figfile
    | _ => ret tt
    end
  else ret tt.

(** Name of the final image: [imageprefix + '.' + self.imagesuffix]. *)
Definition final_imagename (a : cv_args) : string :=
  imageprefix a +:+ "." +:+ imagesuffix.

(** [cvforgridvis], from the sanity check to the opening of the data
    stream and of the cross-validation session. *)
Definition prepare (a : cv_args) : M (list pyval * list pyval * stream) :=
  (* sanity check *)
  if negb (bool_decide (imagepolicy a ∈ ["best"; "full"])) then
    raise_ArgumentError "imagepolicy must be best or full."
  else
    let np_l1_list := numpy.asarray (l1_list a) in
    let np_ltsv_list := numpy.asarray (ltsv_list a) in
    if decide (numpy.dtype np_l1_list = "object") then
      raise_ArgumentError "l1_list contains invalid value"
    else if decide (numpy.dtype np_ltsv_list = "object") then
      raise_ArgumentError "ltsv_list contains invalid value"
    else
      let num_L1 := numpy.len np_l1_list in
      let num_Ltsv := numpy.len np_ltsv_list in
      let sorted_l1_list := numpy.sorted np_l1_list in
      let sorted_ltsv_list := numpy.sorted np_ltsv_list in
      plotter a (EvPlotter num_L1 num_Ltsv) ;;
      f <- match datafile a with
           | Some _ => open_w "cvresult.dat"
           | None => open_devnull
           end ;;
      print_to f "# L1, Ltsv, MSE" ;;
      (* initialize CV *)
      initializecv (num_fold a) ;;
      ret (sorted_l1_list, sorted_ltsv_list, f).

(** Removal of the intermediate images under the ['best'] policy. *)
Definition remove_images (result_image : list string) : M unit :=
  for_each result_image (fun imagename _ => os.remove imagename) tt.

(** [cvforgridvis], from the selection of the best trial to the returned
    dictionary. *)
Definition conclude (a : cv_args) (sorted_l1_list sorted_ltsv_list : list pyval)
    (r : results) : M (gmap string pyval) :=
  best_solution <- numpy.argmin (result_mse r) ;;
  best_mse <- getitem (result_mse r) best_solution ;;
  best_image <- getitem (result_image r) best_solution ;;
  best_L1 <- getitem (result_L1 r) best_solution ;;
  best_Ltsv <- getitem (result_Ltsv r) best_solution ;;
  L1_index <- numpy.where_first best_L1 sorted_l1_list 0 ;;
  Ltsv_index <- numpy.where_first best_Ltsv sorted_ltsv_list 0 ;;
  (if Qc_leb (flt 0 1) best_mse then plotter a (EvMarkBest L1_index Ltsv_index)
   else ret tt) ;;
  plotter a EvDraw ;;
  match figfile a with
  | Some name => plotter a (EvSaveFig name)
  | None => ret tt
  end ;;
  (* copy the best image to final image *)
  shutil.copy2 best_image (final_imagename a) ;;
  (if decide (imagepolicy a = "full") then
     (* keep all intermediate images *)
     ret tt
   else if decide (imagepolicy a = "best") then
     (* remove all intermediate images *)
     remove_images (result_image r)
   else assert false) ;;
  (* finally, return best L1 and Ltsv *)
  ret {[ "L1" := best_L1; "Ltsv" := best_Ltsv ]}.

Definition cvforgridvis (a : cv_args) : M (gmap string pyval) :=
  p <- prepare a ;;
  let '(sorted_l1_list, sorted_ltsv_list, f) := p in
  r <- sweep a f sorted_l1_list sorted_ltsv_list ;;
  (* finalize CV *)
  finalizecv ;;
  conclude a sorted_l1_list sorted_ltsv_list r.

End methods.
End Imager.

(** * Reading the search back from its results *)

(** The [(L1, Ltsv)] pairs of the full-data reconstructions recorded in a
    trace, in call order.  The solver is run on the full data with
    [storeinitialimage=True] and on a fold with [storeinitialimage=False]. *)
Definition full_solves (t : list event) : list (pyval * pyval) :=
  omap (fun e => match e with
                 | EvSolve p _ true _ => Some (p_l1 p, p_ltsv p)
                 | _ => None
                 end) t.

(** The solver calls recorded in a trace. *)
Definition is_solve (e : event) : bool :=
  match e with EvSolve _ _ _ _ => true | _ => false end.
Definition solver_calls (t : list event) : list event :=
  List.filter is_solve t.

(** Sweep order over sorted candidates: [Ltsv] ascending outside, [L1]
    descending inside. *)
Definition visit_order {A} (sorted_l1 sorted_ltsv : list A) : list (A * A) :=
  ltsv ← sorted_ltsv; (fun l1 => (l1, ltsv)) <$> reverse sorted_l1.

(** The candidate values of a float list, sorted as [cvforgridvis] sorts
    them. *)
Definition sort_floats (xs : list Qc) : list Qc :=
  numpy.take xs (numpy.argsort Qc_leb xs).

(** The three typed properties of the imager. *)
Inductive storage_property := Griddedvis | Imagearray | Uvgridconfig.

Definition setter (p : storage_property) : pyval -> M unit :=
  match p with
  | Griddedvis => Imager.set_griddedvis
  | Imagearray => Imager.set_imagearray
  | Uvgridconfig => Imager.set_uvgridconfig
  end.

Definition getter (p : storage_property) : SparseModelingImager -> pyval :=
  match p with
  | Griddedvis => Imager.griddedvis
  | Imagearray => Imager.imagearray
  | Uvgridconfig => Imager.uvgridconfig
  end.

Definition storage_class (p : storage_property) : pytype :=
  match p with
  | Griddedvis => GriddedVisibilityStorage
  | Imagearray => ResultingImageStorage
  | Uvgridconfig => UVGridConfig
  end.

(** The result lists after one more trial. *)
Definition push (r : Imager.results) (L1 Ltsv : pyval) (mse : Qc)
    (imagename : string) : Imager.results :=
  {| Imager.result_L1 := Imager.result_L1 r ++ [L1];
     Imager.result_Ltsv := Imager.result_Ltsv r ++ [Ltsv];
     Imager.result_mse := Imager.result_mse r ++ [mse];
     Imager.result_image := Imager.result_image r ++ [imagename] |}.

(** The store after a line is printed to a stream. *)
Definition stream_write (f : stream) (line : string)
    (m : gmap string file) : gmap string file :=
  match f with
  | Some path => alter (append_line line) path m
  | None => m
  end.

(** Name of the image exported for the pair [(q1, q2)]. *)
Definition imagename_of `{Collaborators} (q1 q2 : Qc) : string :=
  Imager.format_imagename (int_of_float (math_log10 q1))
    (int_of_float (math_log10 q2)) Imager.imagesuffix.

(** [completed f v r m r' m']: starting from result lists [r] and file
    store [m], the trials at the pairs [v], run in that order with data
    stream [f], all complete and leave result lists [r'] and store [m'].
    Each trial appends its entry to the result lists, exports its image
    and prints its line. *)
Inductive completed `{Collaborators} (f : stream) :
    list (pyval * pyval) -> Imager.results -> gmap string file ->
    Imager.results -> gmap string file -> Prop :=
  | completed_nil r m : completed f [] r m r m
  | completed_cons q1 q2 mse img v r m r' m' :
      completed f v
        (push r (PyFloat q1) (PyFloat q2) mse (imagename_of q1 q2))
        (stream_write f (Imager.format_dataline (PyFloat q1) (PyFloat q2) mse)
           (<[imagename_of q1 q2 := Pickled img]> m))
        r' m' ->
      completed f ((PyFloat q1, PyFloat q2) :: v) r m r' m'.

(** Name of the image exported by the trial at a pair of floats. *)
Definition image_of_pair `{Collaborators} (p : pyval * pyval) : string :=
  match p with
  | (PyFloat q1, PyFloat q2) => imagename_of q1 q2
  | _ => ""
  end.


(** The lines of the data file that correspond to the result lists. *)
Fixpoint datalines `{Collaborators} (L1s Ltsvs : list pyval) (mses : list Qc)
    : list string :=
  match L1s, Ltsvs, mses with
  | L1 :: L1s', Ltsv :: Ltsvs', mse :: mses' =>
      Imager.format_dataline L1 Ltsv mse :: datalines L1s' Ltsvs' mses'
  | _, _, _ => []
  end.


(** [k] is the first index at which [l] takes its minimum. *)
Definition first_minimum (l : list Qc) (k : nat) : Prop :=
  exists m, l !! k = Some m
    /\ (forall i x, l !! i = Some x -> (m ≤ x)%Qc)
    /\ (forall i x, (i < k)%nat -> l !! i = Some x -> (m < x)%Qc).

(** The store after the summary figure is saved: [savefig] is called
    when a figure file is named, and writes it when the summary is
    requested. *)
Definition with_figure (a : Imager.cv_args)
    (m : gmap string file) : gmap string file :=
  match Imager.figfile a with
  | Some name => if Imager.summarize a then <[name := Figure]> m else m
  | None => m
  end.

(** Calls to the plotter. *)
Definition is_plot (e : event) : Prop :=
  match e with
  | EvPlotter _ _ | EvPlotImage _ _ _ | EvMarkBest _ _ | EvDraw | EvSaveFig _ => True
  | _ => False
  end.

(** What a call leaves alone on the imager: the session, the gridded
    visibility and the grid configuration. *)
Definition same_session (o o' : SparseModelingImager) : Prop :=
  visset o' = visset o
  /\ _griddedvis o' = _griddedvis o
  /\ _uvgridconfig o' = _uvgridconfig o.

(** A cross-validation session with [K] folds is active: a subset
    generator with that fold count is installed and the gridded
    visibility it was built from is still loaded. *)
Definition cv_session (w : world) (K : Z) : Prop :=
  (exists gv, visset (self w) = Some (PyVisSet gv K))
  /\ Imager.griddedvis (self w) <> PyNone.

(** * A small instance

    Concrete collaborators and a concrete imager on which the search can
    be run: the solver returns the pair of weights it was given as its
    image, and the evaluator reads the mean square error of a parameter
    pair from a table. *)

Module Demo.

(** Number of decimal digits of a positive integer. *)
Definition ndigits (n : Z) : Z := Z.of_nat (String.length (pretty n)).

(** [int(log10(q))] for a positive rational, by counting digits. *)
Definition trunc_log10 (q : Qc) : Z :=
  let n := Qnum q in
  let d := Z.pos (Qden q) in
  if (d <=? n)%Z then ndigits (n / d) - 1 else - (ndigits (d / n) - 1).

Definition float_of (v : pyval) : Qc :=
  match v with PyFloat x => x | _ => flt 0 1 end.

(** Mean square errors of the four trials of the selection example. *)
Definition mse_table (l1 ltsv : Qc) : Qc :=
  if decide (l1 = flt 1 100) then
    if decide (ltsv = flt 1 100) then flt 1 2 else flt 9 10
  else
    if decide (ltsv = flt 1 100) then flt 3 10 else flt 2 5.

Definition collaborators : Collaborators := {|
  solve_kernel p vis init := Ok [float_of (p_l1 p); float_of (p_ltsv p)];
  generate_subset vs uv i :=
    (PyInst GriddedVisibilityStorage [flt (Z.of_nat i) 1],
     PyInst GriddedVisibilityStorage []);
  get_mean_mse folds uv :=
    match folds with
    | (_, [l1; ltsv]) :: _ => Ok (mse_table l1 ltsv)
    | _ => Raise (RuntimeError "no fold was accumulated")
    end;
  math_log10 q := Q2Qc (inject_Z (trunc_log10 q));
  format_float q := pretty (Qnum q) +:+ "/" +:+ pretty (Z.pos (Qden q))
|}.

Definition vis : pyval :=
  PyInst GriddedVisibilityStorage [flt 1 1; flt 2 1; flt 3 1; flt 4 1].

Definition imager : SparseModelingImager := {|
  _griddedvis := Some vis;
  _imagearray := Some PyNone;
  _uvgridconfig := Some (PyInst UVGridConfig [flt 2 1; flt 2 1]);
  visset := None;
  mfistaparam := None;
  solver := {| s_mfistaparam :=
                 {| p_l1 := PyFloat (flt 0 1); p_ltsv := PyFloat (flt 0 1);
                    p_maxiter := 50000; p_eps := flt 1 100000;
                    p_clean_box := None |};
               s_initialimage := None |}
|}.

Definition start : world := {| self := imager; fs := ∅; trace := [] |}.

Definition make_args (l1_list ltsv_list : list pyval) (imageprefix : string)
    (policy : string) (datafile : option string) : Imager.cv_args := {|
  Imager.l1_list := l1_list;
  Imager.ltsv_list := ltsv_list;
  Imager.num_fold := 2;
  Imager.imageprefix := imageprefix;
  Imager.imagepolicy := policy;
  Imager.summarize := true;
  Imager.figfile := None;
  Imager.datafile := datafile;
  Imager.maxiter := 50000;
  Imager.eps := flt 1 100000;
  Imager.clean_box := None
|}.

(** The candidates of the sweep-order example, two folds. *)
Definition args (policy : string) (datafile : option string) : Imager.cv_args :=
  make_args [PyFloat (flt 1 1000); PyFloat (flt 1 100)]
    [PyFloat (flt 1 100); PyFloat (flt 1 10)] "image" policy datafile.

(** The value a run returned ([dflt] when it raised) and the state it
    ended in. *)
Definition returned {A} (dflt : A) (run : result A * world) : A :=
  match run.1 with Ok a => a | Raise _ => dflt end.
Definition final {A} (run : result A * world) : world := run.2.

(** The search on the example candidates, keeping every image. *)
Definition search : result (gmap string pyval) * world :=
  @Imager.cvforgridvis collaborators (args "full" None) start.


(** A search whose two [L1] candidates, 1 and 2, have the same decimal
    exponent and so the same image name. *)
Definition search_same_name : result (gmap string pyval) * world :=
  @Imager.cvforgridvis collaborators
    (make_args [PyFloat (flt 1 1); PyFloat (flt 2 1)] [PyFloat (flt 1 1)]
       "image" "best" None) start.

(** A search whose final image is given the name of a trial image. *)
Definition search_clash : result (gmap string pyval) * world :=
  @Imager.cvforgridvis collaborators
    (make_args [PyFloat (flt 1 1000); PyFloat (flt 1 100)]
       [PyFloat (flt 1 100); PyFloat (flt 1 10)] "L1_-2_Ltsv_-2" "best" None)
    start.

(** A store that holds one image. *)
Definition one_image : world :=
  {| self := imager;
     fs := {[ "L1_0_Ltsv_0.pickle" := Pickled (PyInst ResultingImageStorage []) ]};
     trace := [] |}.

(** A store that holds two images. *)
Definition two_images : world :=
  {| self := imager;
     fs := {[ "L1_0_Ltsv_0.pickle" := Pickled (PyInst ResultingImageStorage []);
              "L1_1_Ltsv_0.pickle"
                := Pickled (PyInst ResultingImageStorage [flt 1 1]) ]};
     trace := [] |}.

(** Searches with invalid arguments: an unknown image policy, a [None]
    among the [L1] candidates, a string among them. *)
Definition search_bad_policy : result (gmap string pyval) * world :=
  @Imager.cvforgridvis collaborators (args "worst" None) start.
Definition search_bad_object : result (gmap string pyval) * world :=
  @Imager.cvforgridvis collaborators
    (make_args [PyFloat (flt 1 100); PyNone] [PyFloat (flt 1 100)]
       "image" "full" None) start.
Definition search_bad_string : result (gmap string pyval) * world :=
  @Imager.cvforgridvis collaborators
    (make_args [PyFloat (flt 1 100); PyStr "0.1"] [PyFloat (flt 1 100)]
       "image" "full" None) start.

End Demo.

(** * Properties *)

Section monad_facts.
Context {A B : Type}.

Lemma bind_Ok (m : M A) (k : A -> M B) w b w' :
  bind m k w = (Ok b, w') ->
  exists a w1, m w = (Ok a, w1) /\ k a w1 = (Ok b, w').
Proof.
  unfold bind. destruct (m w) as [[a|e] w1]; [eauto | discriminate].
Qed.

Lemma bind_inv (m : M A) (k : A -> M B) w r w' :
  bind m k w = (r, w') ->
  (exists a w1, m w = (Ok a, w1) /\ k a w1 = (r, w'))
  \/ (exists e, m w = (Raise e, w') /\ r = Raise e).
Proof.
  unfold bind. destruct (m w) as [[a|e] w1]; [eauto | ].
  intros [= <- <-]. eauto.
Qed.

Lemma bind_step (m : M A) (k : A -> M B) w a w1 :
  m w = (Ok a, w1) -> bind m k w = k a w1.
Proof. unfold bind. by intros ->. Qed.

Lemma bind_ext_l (m m' : M A) (k : A -> M B) w :
  m w = m' w -> bind m k w = bind m' k w.
Proof. unfold bind. by intros ->. Qed.

Lemma bind_ext_r (m : M A) (k k' : A -> M B) w :
  (forall a w1, k a w1 = k' a w1) -> bind m k w = bind m k' w.
Proof.
  intros Hk. unfold bind. destruct (m w) as [[a|e] w1]; [apply Hk | done].
Qed.

Lemma bind_raise (m : M A) (k : A -> M B) w e w1 :
  m w = (Raise e, w1) -> bind m k w = (Raise e, w1).
Proof. unfold bind. by intros ->. Qed.
End monad_facts.

(** Peels the successful prefix of a monadic computation off [H]. *)
Ltac ok_step H :=
  let a := fresh "a" in
  let w := fresh "w" in
  let E := fresh "E" in
  apply bind_Ok in H; destruct H as (a & w & E & H).

Ltac prim_inv H :=
  unfold ret, raise, get_self, get_fs, put_self, put_fs, emit in H;
  first [ discriminate H | injection H as <- <- ].

(** Splits [H : bind m k w = (r, w')] into the run that continues after
    [m] and the run in which [m] raises. *)
Ltac bind_cases H E :=
  apply bind_inv in H as [(? & ? & E & H) | (? & E & H)];
  [ | first [ discriminate H | subst ] ].

(** The same, naming the value and the state between [m] and [k]. *)
Tactic Notation "bind_split" hyp(H) "as" simple_intropattern(a)
    simple_intropattern(w) ident(E) :=
  apply bind_inv in H as [(a & w & E & H) | (? & E & H)];
  [ | first [ discriminate H | subst ] ].

(** ** Order on floats *)

Lemma Qc_leb_le x y : Qc_leb x y = true <-> (x ≤ y)%Qc.
Proof. unfold Qc_leb, Qcle. apply Qle_bool_iff. Qed.

Lemma Qc_ltb_lt x y : Qc_ltb x y = true <-> (x < y)%Qc.
Proof.
  unfold Qc_ltb. rewrite negb_true_iff, <- not_true_iff_false.
  rewrite Qle_bool_iff. split.
  - apply Qcnot_le_lt.
  - apply Qclt_not_le.
Qed.

Lemma Qc_ltb_ge x y : Qc_ltb x y = false <-> (y ≤ x)%Qc.
Proof.
  unfold Qc_ltb. rewrite negb_false_iff. apply Qle_bool_iff.
Qed.

Lemma Qc_leb_total x y : Qc_leb x y = false -> Qc_leb y x = true.
Proof.
  intros Hf. apply Qc_leb_le. destruct (Qc_le_total x y) as [Hxy|]; [|done].
  apply Qc_leb_le in Hxy. congruence.
Qed.

(** ** Typed property setters *)

Lemma typed_setter_None cls msg store w :
  Imager.typed_setter cls msg store PyNone w
  = (Ok tt, set_self (store PyNone (self w)) w).
Proof. reflexivity. Qed.

Lemma typed_setter_exact cls msg store v w :
  type_of v = cls ->
  Imager.typed_setter cls msg store v w
  = (Ok tt, set_self (store (if is_None v then PyNone else v) (self w)) w).
Proof.
  intros Hty. unfold Imager.typed_setter.
  destruct (is_None v); [reflexivity|].
  destruct (decide _); [reflexivity | contradiction].
Qed.

Lemma typed_setter_reject cls msg store v w :
  v <> PyNone -> type_of v <> cls ->
  Imager.typed_setter cls msg store v w = (Raise (TypeError msg), w).
Proof.
  intros Hv Hty. unfold Imager.typed_setter.
  destruct v; try contradiction; simpl;
    (destruct (decide _); [contradiction | reflexivity]).
Qed.

(** C10. For [griddedvis], [imagearray] and [uvgridconfig] alike:
    assigning [None] stores [None]; assigning a value whose type is
    exactly the storage class of the property stores that value; any other
    value raises [TypeError] and leaves the whole state as it was, so the
    getter still returns the value stored before. *)
Theorem setter_stores_or_rejects (p : storage_property) (v : pyval) (w : world) :
  (exists w', setter p PyNone w = (Ok tt, w') /\ getter p (self w') = PyNone)
  /\ (type_of v = storage_class p ->
      exists w', setter p v w = (Ok tt, w') /\ getter p (self w') = v)
  /\ (v <> PyNone -> type_of v <> storage_class p ->
      exists msg, setter p v w = (Raise (TypeError msg), w)).
Proof.
  split; [|split].
  - destruct p; eexists; (split; [apply typed_setter_None | reflexivity]).
  - intros Hty.
    destruct p; simpl in *; eexists;
      (split; [apply typed_setter_exact; exact Hty |]);
      destruct v; simpl in *; try discriminate; reflexivity.
  - intros Hv Hty.
    destruct p; eexists; apply typed_setter_reject; assumption.
Qed.

Lemma setter_stores_or_rejects_witness :
  (exists w', setter Imagearray (PyInst ResultingImageStorage [flt 1 1]) Demo.start
              = (Ok tt, w')
              /\ getter Imagearray (self w') = PyInst ResultingImageStorage [flt 1 1])
  /\ (exists msg, setter Griddedvis (PyInst (UserClass "MyStorage") []) Demo.start
                  = (Raise (TypeError msg), Demo.start))
  /\ getter Griddedvis (self Demo.start) = Demo.vis.
Proof.
  split; [|split].
  - apply (setter_stores_or_rejects Imagearray
             (PyInst ResultingImageStorage [flt 1 1]) Demo.start).
    reflexivity.
  - apply (setter_stores_or_rejects Griddedvis
             (PyInst (UserClass "MyStorage") []) Demo.start);
      discriminate.
  - reflexivity.
Defined.

(** ** The cross-validation session *)

Lemma new_generator_Ok gv K w :
  (1 <= K <= Imager.num_samples gv)%Z ->
  Imager.new_VisibilitySubsetGenerator gv K w = (Ok (PyVisSet gv K), w).
Proof.
  intros [H1 H2]. unfold Imager.new_VisibilitySubsetGenerator.
  destruct (Z.ltb_spec K 1); [lia|].
  destruct (Z.ltb_spec (Imager.num_samples gv) K); [lia | done].
Qed.

Lemma new_generator_Raise gv K w :
  ~ (1 <= K <= Imager.num_samples gv)%Z ->
  exists msg,
    Imager.new_VisibilitySubsetGenerator gv K w
    = (Raise (ConfigurationError msg), w).
Proof.
  intros Hbad. unfold Imager.new_VisibilitySubsetGenerator.
  destruct (Z.ltb_spec K 1); [by eexists|].
  destruct (Z.ltb_spec (Imager.num_samples gv) K); [by eexists | lia].
Qed.

Lemma new_generator_inv gv K w r w' :
  Imager.new_VisibilitySubsetGenerator gv K w = (r, w') ->
  w' = w
  /\ (r = Ok (PyVisSet gv K) \/ exists msg, r = Raise (ConfigurationError msg)).
Proof.
  destruct (decide (1 <= K <= Imager.num_samples gv)%Z) as [Hok | Hbad].
  - rewrite new_generator_Ok by done. intros [= <- <-]. by auto.
  - destruct (new_generator_Raise gv K w Hbad) as [msg ->].
    intros [= <- <-]. by eauto.
Qed.



(** C3. While a session whose fold count is at most one is active,
    [computegridmse] returns the sentinel [-1.0] for every parameter pair
    and leaves the state as it was: the trace gains no solver call. *)
Theorem computegridmse_disabled `{Collaborators}
    (l1 ltsv : pyval) (maxiter : Z) (eps : Qc) (clean_box : option ndarray)
    (w : world) (K : Z) :
  cv_session w K -> (K <= 1)%Z ->
  Imager.computegridmse l1 ltsv maxiter eps clean_box w = (Ok (flt (-1) 1), w).
Proof.
  intros [[gv Hvs] Hgv] HK. unfold Imager.computegridmse.
  assert (is_None (Imager.griddedvis (self w)) = false) as Hloaded
    by (destruct (Imager.griddedvis (self w)); done).
  erewrite bind_step by reflexivity.
  erewrite bind_step by (rewrite Hloaded; reflexivity).
  erewrite bind_step
    by (unfold Imager.visset_num_fold; rewrite Hvs; reflexivity).
  destruct (Z.leb_spec K 1); [reflexivity | lia].
Qed.

Lemma computegridmse_disabled_witness :
  let w := set_self (Imager.with_visset (PyVisSet Demo.vis 1) Demo.imager)
             Demo.start in
  @Imager.computegridmse Demo.collaborators (PyFloat (flt 1 100))
    (PyFloat (flt 1 10)) 50000 (flt 1 100000) None w
  = (Ok (flt (-1) 1), w)
  /\ solver_calls (trace w) = [].
Proof.
  split.
  - apply (@computegridmse_disabled Demo.collaborators) with (K := 1%Z).
    + split; [exists Demo.vis; reflexivity | discriminate].
    + lia.
  - reflexivity.
Defined.

(** ** One solver run *)

Section solver_facts.
Context `{Collaborators}.

Lemma same_session_refl o : same_session o o.
Proof. by repeat split. Qed.

Lemma same_session_trans o1 o2 o3 :
  same_session o1 o2 -> same_session o2 o3 -> same_session o1 o3.
Proof. unfold same_session. intros (?&?&?) (?&?&?). repeat split; congruence. Qed.

Lemma _mfista_inv p vis store ovw w r w' :
  Imager._mfista p vis store ovw w = (r, w') ->
  fs w' = fs w
  /\ same_session (self w) (self w')
  /\ _imagearray (self w') = _imagearray (self w)
  /\ (trace w' = trace w \/ trace w' = trace w ++ [EvSolve p vis store ovw])
  /\ (forall arr, r = Ok arr -> trace w' = trace w ++ [EvSolve p vis store ovw]).
Proof.
  unfold Imager._mfista, Imager.solver_solve, assert, bind, get_self,
    put_self, emit, ret, raise.
  destruct (is_None vis); simpl.
  - intros [= <- <-]. repeat split; auto; discriminate.
  - destruct (solve_kernel _ _ _); simpl; intros [= <- <-]; simpl;
      repeat split; auto.
Qed.

Lemma mfista_inv l1 ltsv maxiter eps clean_box store ovw w r w' :
  Imager.mfista l1 ltsv maxiter eps clean_box store ovw w = (r, w') ->
  let p := {| p_l1 := l1; p_ltsv := ltsv; p_maxiter := maxiter;
              p_eps := eps; p_clean_box := clean_box |} in
  let call := EvSolve p (Imager.griddedvis (self w)) store ovw in
  fs w' = fs w
  /\ same_session (self w) (self w')
  /\ (trace w' = trace w \/ trace w' = trace w ++ [call])
  /\ (r = Ok tt ->
      trace w' = trace w ++ [call]
      /\ exists arr, Imager.imagearray (self w') = PyInst ResultingImageStorage arr).
Proof.
  intros Hrun p call. unfold Imager.mfista in Hrun.
  bind_cases Hrun E; prim_inv E.
  bind_cases Hrun E; prim_inv E.
  bind_cases Hrun E; prim_inv E.
  bind_cases Hrun E;
    apply _mfista_inv in E as (Hfs & Hses & Him & Htr & Hok); simpl in *.
  - unfold Imager.set_imagearray, Imager.typed_setter in Hrun. simpl in Hrun.
    unfold bind, get_self, put_self in Hrun. simplify_eq/=.
    destruct Hses as (? & ? & ?).
    split; [done|]. split; [by repeat split|].
    split; [right; by eapply Hok|]. intros _.
    split; [by eapply Hok | eauto].
  - destruct Hses as (? & ? & ?).
    split; [done|]. split; [by repeat split|]. split; [done | discriminate].
Qed.

End solver_facts.
(** ** Loops *)

Lemma for_each_inv {A S} (I : world -> Prop) (l : list A)
    (body : A -> S -> M S) :
  (forall x acc w res w', I w -> body x acc w = (res, w') -> I w') ->
  forall acc w res w', I w -> for_each l body acc w = (res, w') -> I w'.
Proof.
  intros Hbody. induction l as [|x l IH]; simpl; intros acc w res w' HI Hrun.
  - prim_inv Hrun. exact HI.
  - bind_cases Hrun E; eauto.
Qed.

Lemma for_each_inv' {A S} (I : world -> Prop) (l : list A)
    (body : A -> S -> M S) acc w res w' :
  for_each l body acc w = (res, w') ->
  I w ->
  (forall x acc w res w', I w -> body x acc w = (res, w') -> I w') ->
  I w'.
Proof. intros Hrun HI Hbody. by eapply for_each_inv. Qed.

(** A loop over the indices of [l] that first reads [l[i]] is a loop over
    the indexed elements. *)
Lemma for_each_getitem {A S} (l : list A) (idx : list nat) (ps : list (nat * A))
    (body : nat -> A -> S -> M S) acc w :
  Forall2 (fun i p => p.1 = i /\ l !! i = Some p.2) idx ps ->
  for_each idx (fun i r => x <- getitem l i ;; body i x r) acc w
  = for_each ps (fun p r => body p.1 p.2 r) acc w.
Proof.
  intros Hall. revert acc w.
  induction Hall as [|i [i' x] idx ps [Hi Hx] _ IH]; intros acc w; simpl in *.
  - reflexivity.
  - subst i'.
    etransitivity; [apply bind_ext_l | apply bind_ext_r; intros; apply IH].
    apply (bind_step (getitem l i) (fun x => body i x acc) w x w).
    unfold getitem. by rewrite Hx.
Qed.

Lemma enumerate_indices {A} (l : list A) :
  Forall2 (fun i p => p.1 = i /\ l !! i = Some p.2)
    (seq 0 (length l)) (numpy.enumerate l).
Proof.
  unfold numpy.enumerate. apply Forall2_same_length_lookup_2.
  - rewrite length_zip_with, length_seq. lia.
  - intros i n [n' x] Hn Hp. apply lookup_zip_with_Some in Hp
      as (n'' & x' & [= <- <-] & Hn' & Hx).
    rewrite lookup_seq in Hn, Hn'. destruct Hn as [-> _], Hn' as [-> _].
    simpl. auto.
Qed.

(** ** Traces *)

Lemma full_solves_app t1 t2 :
  full_solves (t1 ++ t2) = full_solves t1 ++ full_solves t2.
Proof. apply omap_app. Qed.

Lemma solver_calls_app t1 t2 :
  solver_calls (t1 ++ t2) = solver_calls t1 ++ solver_calls t2.
Proof. apply List.filter_app. Qed.

(** ** One trial *)

Section trial_facts.
Context `{Collaborators}.

Lemma log10_inv x w r w' :
  Imager.log10 x w = (r, w') ->
  w' = w /\ (forall e, r = Ok e -> exists q, x = PyFloat q /\ e = math_log10 q).
Proof.
  unfold Imager.log10. destruct x; try (intros Hr; prim_inv Hr; by split).
  destruct (Qc_ltb _ _); intros Hr; prim_inv Hr; split; try done.
  intros e [= <-]. eauto.
Qed.

Lemma exportimage_inv imagename overwrite w r w' :
  Imager.exportimage imagename overwrite w = (r, w') ->
  self w' = self w
  /\ full_solves (trace w') = full_solves (trace w)
  /\ (r = Ok tt ->
      fs w' = <[imagename := Pickled (Imager.imagearray (self w))]> (fs w))
  /\ (r <> Ok tt -> fs w' = fs w).
Proof.
  unfold Imager.exportimage, os.exists_. intros Hrun.
  bind_cases Hrun E; prim_inv E.
  destruct (is_None _).
  { prim_inv Hrun. by repeat split. }
  bind_cases Hrun E; [|bind_cases E E'; [prim_inv E | prim_inv E']].
  bind_cases E E'; prim_inv E'. prim_inv E.
  destruct (_ && _).
  { prim_inv Hrun. by repeat split. }
  bind_cases Hrun E; prim_inv E.
  bind_cases Hrun E; prim_inv E.
  prim_inv Hrun. simpl.
  rewrite full_solves_app. simpl. rewrite app_nil_r. by repeat split.
Qed.

Lemma getimage_inv imagename w r w' :
  Imager.getimage imagename w = (r, w') -> w' = w.
Proof.
  unfold Imager.getimage, os.exists_. intros Hrun.
  bind_cases Hrun E; [|bind_cases E E'; [prim_inv E | prim_inv E']].
  bind_cases E E'; prim_inv E'. prim_inv E.
  destruct (negb _); [by prim_inv Hrun|].
  bind_cases Hrun E; prim_inv E.
  repeat case_match; by prim_inv Hrun.
Qed.

Lemma print_to_eq f line w :
  print_to f line w = (Ok tt, set_fs (stream_write f line (fs w)) w).
Proof. destruct f; [reflexivity | by destruct w]. Qed.

(** The drawing calls: they leave an event, or nothing without summary. *)
Lemma plotter_inv a call w r w' :
  match call with
  | EvPlotImage _ _ _ | EvMarkBest _ _ | EvDraw => True
  | _ => False
  end ->
  Imager.plotter a call w = (r, w') ->
  r = Ok tt /\ self w' = self w /\ fs w' = fs w
  /\ (trace w' = trace w \/ trace w' = trace w ++ [call]).
Proof.
  unfold Imager.plotter. intros Hcall.
  destruct (Imager.summarize a), call; try done; intros Hr;
    unfold CVPlotter.plotimage, CVPlotter.mark_bestimage, CVPlotter.draw in Hr;
    prim_inv Hr; simpl; auto.
Qed.

(** The constructor of the plotter: it raises for an empty grid when the
    summary is requested. *)
Lemma plotter_init_inv a nv nh w r w' :
  Imager.plotter a (EvPlotter nv nh) w = (r, w') ->
  self w' = self w /\ fs w' = fs w
  /\ (trace w' = trace w \/ trace w' = trace w ++ [EvPlotter nv nh])
  /\ (r = Ok tt
      \/ (r = Raise (ZeroDivisionError "float division by zero") /\ w' = w
          /\ Imager.summarize a = true /\ (nv = 0 \/ nh = 0)%nat)).
Proof.
  unfold Imager.plotter, CVPlotter.init.
  destruct (Imager.summarize a); [|intros Hr; prim_inv Hr; by auto].
  destruct (bool_decide_reflect (nh = 0%nat));
    [intros Hr; prim_inv Hr; by auto 10|].
  destruct (bool_decide_reflect (nv = 0%nat));
    [intros Hr; prim_inv Hr; by auto 10|].
  intros Hr; prim_inv Hr; simpl; by auto.
Qed.

(** [savefig] writes the figure file when the summary is requested. *)
Lemma plotter_savefig_inv a name w r w' :
  Imager.plotter a (EvSaveFig name) w = (r, w') ->
  r = Ok tt /\ self w' = self w
  /\ fs w' = (if Imager.summarize a then <[name := Figure]> (fs w) else fs w)
  /\ (trace w' = trace w \/ trace w' = trace w ++ [EvSaveFig name]).
Proof.
  unfold Imager.plotter, CVPlotter.savefig, bind, get_fs, emit, put_fs.
  destruct (Imager.summarize a); intros Hr; prim_inv Hr; simpl; auto.
Qed.

Lemma fold_trial_inv p handler i acc w res w' :
  Imager.fold_trial p handler i acc w = (res, w') ->
  fs w' = fs w /\ full_solves (trace w') = full_solves (trace w).
Proof.
  unfold Imager.fold_trial. intros Hrun.
  bind_split Hrun as arr w1 E;
    apply _mfista_inv in E as (Hfs & _ & _ & Htr & _).
  - bind_split Hrun as u w2 E; prim_inv E. prim_inv Hrun. simpl.
    split; [done|]. rewrite full_solves_app, app_nil_r.
    destruct Htr as [-> | ->]; [done|].
    by rewrite full_solves_app, app_nil_r.
  - split; [done|]. destruct Htr as [-> | ->]; [done|].
    by rewrite full_solves_app, app_nil_r.
Qed.

(** The fold reconstructions of [computegridmse] touch neither the file
    store nor the list of full-data reconstructions. *)
Lemma computegridmse_inv l1 ltsv maxiter eps clean_box w r w' :
  Imager.computegridmse l1 ltsv maxiter eps clean_box w = (r, w') ->
  fs w' = fs w /\ full_solves (trace w') = full_solves (trace w).
Proof.
  unfold Imager.computegridmse. intros Hrun.
  bind_cases Hrun E; prim_inv E.
  bind_cases Hrun E;
    (unfold assert in E; destruct (negb _); prim_inv E); [|done].
  bind_cases Hrun E;
    (unfold Imager.visset_num_fold in E;
     destruct (visset (self w)) as [[]|]; prim_inv E);
    try done.
  destruct (_ <=? _)%Z; [by prim_inv Hrun|].
  cbv zeta in Hrun.
  assert (forall folds0 w1 res,
    for_each (seq 0 (Z.to_nat num_fold))
      (Imager.fold_trial
         {| p_l1 := l1; p_ltsv := ltsv; p_maxiter := maxiter;
            p_eps := eps; p_clean_box := clean_box |}
         (PyVisSet griddedvis num_fold, Imager.uvgridconfig (self w)))
      folds0 w = (res, w1) ->
    fs w1 = fs w /\ full_solves (trace w1) = full_solves (trace w)) as Hloop.
  { intros folds0 w1 res Hloop.
    eapply (for_each_inv' (fun w1 =>
      fs w1 = fs w /\ full_solves (trace w1) = full_solves (trace w)));
      [exact Hloop | done |].
    intros i acc w2 res2 w3 [Hfs Htr] Hbody.
    apply fold_trial_inv in Hbody as [-> ->]. done. }
  bind_split Hrun as folds w1 E; apply Hloop in E; [|done].
  bind_cases Hrun E'; prim_inv E'.
  destruct (get_mean_mse _ _); by prim_inv Hrun.
Qed.

(** A trial runs the solver on the full data at most once, with its own
    parameter pair; when it completes it has done so exactly once, has
    appended one entry to each result list, has exported its image and
    has printed its line to the data stream. *)
Lemma trial_inv a f j Ltsv ovw i L1 r w res w' :
  Imager.trial a f j Ltsv ovw i L1 r w = (res, w') ->
  (full_solves (trace w') = full_solves (trace w)
   \/ full_solves (trace w') = full_solves (trace w) ++ [(L1, Ltsv)])
  /\ (forall r', res = Ok r' ->
      exists q1 q2 mse img,
        L1 = PyFloat q1 /\ Ltsv = PyFloat q2
        /\ r' = push r L1 Ltsv mse (imagename_of q1 q2)
        /\ full_solves (trace w') = full_solves (trace w) ++ [(L1, Ltsv)]
        /\ fs w' = stream_write f (Imager.format_dataline L1 Ltsv mse)
                     (<[imagename_of q1 q2 := Pickled img]> (fs w))).
Proof.
  unfold Imager.trial. intros Hrun.
  bind_cases Hrun E; apply log10_inv in E as [-> Hq1];
    [|split; [by left | done]].
  destruct (Hq1 _ eq_refl) as (q1 & -> & ->). clear Hq1.
  bind_cases Hrun E; apply log10_inv in E as [-> Hq2];
    [|split; [by left | done]].
  destruct (Hq2 _ eq_refl) as (q2 & -> & ->). clear Hq2.
  fold (imagename_of q1 q2) in Hrun.
  bind_cases Hrun E; apply mfista_inv in E as (Hfs1 & _ & Htr1 & Hok1);
    simpl in Htr1, Hok1.
  2:{ split; [|done]. destruct Htr1 as [-> | ->]; [by left|].
      right. by rewrite full_solves_app. }
  destruct x. destruct (Hok1 eq_refl) as [Htr (arr & Harr)]. clear Htr1 Hok1.
  assert (forall w2, full_solves (trace w2) = full_solves (trace x0) ->
    full_solves (trace w2)
    = full_solves (trace w) ++ [(PyFloat q1, PyFloat q2)]) as Hsolved.
  { intros w2 ->. by rewrite Htr, full_solves_app. }
  bind_cases Hrun E;
    apply exportimage_inv in E as (Hself2 & Htr2 & Hfs2 & _).
  2:{ split; [auto | done]. }
  destruct x. specialize (Hfs2 eq_refl).
  bind_cases Hrun E; apply computegridmse_inv in E as [Hfs3 Htr3].
  2:{ split; [|done]. right. apply Hsolved. congruence. }
  bind_cases Hrun E; rewrite print_to_eq in E; [|discriminate E].
  injection E as <- <-.
  assert (forall res1 w4 w5,
    (if Imager.summarize a
     then imagearray <- Imager.getimage (imagename_of q1 q2) ;;
          emit (EvPlotImage i j x)
     else ret tt) w4 = (res1, w5) ->
    fs w5 = fs w4 /\ full_solves (trace w5) = full_solves (trace w4)) as Hplot.
  { intros res1 w4 w5. destruct (Imager.summarize a); intros Hp.
    - bind_cases Hp E; apply getimage_inv in E as ->; [|done].
      prim_inv Hp. simpl. by rewrite full_solves_app, app_nil_r.
    - by prim_inv Hp. }
  bind_cases Hrun E; apply Hplot in E as [Hfs5 Htr5]; simpl in Hfs5, Htr5.
  2:{ split; [|done]. right. apply Hsolved. congruence. }
  prim_inv Hrun. split.
  - right. apply Hsolved. congruence.
  - intros r' [= <-]. exists q1, q2, x, (Imager.imagearray (self x0)).
    repeat split.
    + apply Hsolved. congruence.
    + rewrite Hfs5, Hfs3, Hfs2, Hfs1. reflexivity.
Qed.

End trial_facts.

(** ** The sweep *)

Section sweep_facts.
Context `{Collaborators}.

Lemma completed_app f v1 v2 r m r1 m1 r2 m2 :
  completed f v1 r m r1 m1 -> completed f v2 r1 m1 r2 m2 ->
  completed f (v1 ++ v2) r m r2 m2.
Proof.
  induction 1 as [|q1 q2 mse img v r m r1 m1 _ IH]; simpl; [done|].
  intros Hrest. apply (completed_cons f q1 q2 mse img). by apply IH.
Qed.

(** The inner loop at a fixed [Ltsv], over indexed [L1] values. *)
Lemma inner_loop_inv a f j Ltsv ovw (ps : list (nat * pyval)) r w res w' :
  for_each ps (fun p r => Imager.trial a f j Ltsv ovw p.1 p.2 r) r w
  = (res, w') ->
  let row := (fun p : nat * pyval => (p.2, Ltsv)) <$> ps in
  (exists visited, visited `prefix_of` row
     /\ full_solves (trace w') = full_solves (trace w) ++ visited)
  /\ (forall r', res = Ok r' ->
      full_solves (trace w') = full_solves (trace w) ++ row
      /\ completed f row r (fs w) r' (fs w')).
Proof.
  revert r w. induction ps as [|[i L1] ps IH]; intros r w Hrun row; simpl in *.
  - prim_inv Hrun. split.
    + exists []. by rewrite app_nil_r.
    + intros r' [= <-]. rewrite app_nil_r. split; [done | constructor].
  - subst row. bind_cases Hrun E; apply trial_inv in E as [Hvis Hok].
    + destruct (Hok _ eq_refl) as (q1 & q2 & mse & img & -> & -> & -> & Htr & Hfs).
      apply IH in Hrun as [(visited & Hpre & Hvisited) Hdone]. split.
      * exists ((PyFloat q1, PyFloat q2) :: visited). split.
        { by apply prefix_cons. }
        { rewrite Hvisited, Htr, <- app_assoc. reflexivity. }
      * intros r' ->. destruct (Hdone _ eq_refl) as [Htr' Hcomp]. split.
        { rewrite Htr', Htr, <- app_assoc. reflexivity. }
        { apply (completed_cons f q1 q2 mse img). rewrite <- Hfs.
          exact Hcomp. }
    + split; [|done]. destruct Hvis as [Hvis | Hvis].
      * exists []. split; [apply prefix_nil | by rewrite app_nil_r].
      * exists [(L1, Ltsv)]. split; [|done].
        apply prefix_cons, prefix_nil.
Qed.

(** The loop nest of [sweep], over indexed candidates. *)
Lemma outer_loop_inv a f (sorted_l1_list : list pyval)
    (qs : list (nat * pyval)) r w res w' :
  for_each qs
    (fun q r =>
       for_each (reverse (seq 0 (length sorted_l1_list)))
         (fun i r =>
            L1 <- getitem sorted_l1_list i ;;
            Imager.trial a f q.1 q.2 true i L1 r)
         r)
    r w = (res, w') ->
  let order := visit_order sorted_l1_list qs.*2 in
  (exists visited, visited `prefix_of` order
     /\ full_solves (trace w') = full_solves (trace w) ++ visited)
  /\ (forall r', res = Ok r' ->
      full_solves (trace w') = full_solves (trace w) ++ order
      /\ completed f order r (fs w) r' (fs w')).
Proof.
  revert r w. induction qs as [|[j Ltsv] qs IH]; intros r w Hrun order.
  - simpl in Hrun. prim_inv Hrun. subst order. simpl. split.
    + exists []. by rewrite app_nil_r.
    + intros r' [= <-]. rewrite app_nil_r. split; [done | constructor].
  - subst order. unfold visit_order. rewrite fmap_cons, bind_cons.
    fold (visit_order sorted_l1_list qs.*2).
    assert (((fun p : nat * pyval => (p.2, Ltsv)) <$> numpy.enumerate sorted_l1_list)
            = (fun l1 => (l1, Ltsv)) <$> sorted_l1_list) as Hrow.
    { rewrite <- (snd_zip (seq 0 (length sorted_l1_list)) sorted_l1_list)
        at 2 by (rewrite length_seq; lia).
      by rewrite <- list_fmap_compose. }
    simpl in Hrun |- *. bind_cases Hrun E;
      (rewrite (for_each_getitem sorted_l1_list _
                  (reverse (numpy.enumerate sorted_l1_list))
                  (fun i L1 r => Imager.trial a f j Ltsv true i L1 r)) in E
         by (apply Forall2_reverse, enumerate_indices);
       apply inner_loop_inv in E as [Hvis Hok];
       rewrite fmap_reverse, Hrow, <- fmap_reverse in Hvis, Hok).
    + destruct (Hok _ eq_refl) as [Htr Hcomp].
      apply IH in Hrun as [(visited & Hpre & Hvisited) Hdone]. split.
      * eexists. split; [by apply prefix_app|].
        by rewrite Hvisited, Htr, <- app_assoc.
      * intros r' ->. destruct (Hdone _ eq_refl) as [Htr' Hcomp']. split.
        { by rewrite Htr', Htr, <- app_assoc. }
        { eapply completed_app; [exact Hcomp | exact Hcomp']. }
    + split; [|done]. destruct Hvis as (visited & Hpre & Hvisited).
      exists visited. split; [|done]. by apply prefix_app_r.
Qed.

Lemma sweep_inv a f sorted_l1_list sorted_ltsv_list w res w' :
  Imager.sweep a f sorted_l1_list sorted_ltsv_list w = (res, w') ->
  let order := visit_order sorted_l1_list sorted_ltsv_list in
  (exists visited, visited `prefix_of` order
     /\ full_solves (trace w') = full_solves (trace w) ++ visited)
  /\ (forall r, res = Ok r ->
      full_solves (trace w') = full_solves (trace w) ++ order
      /\ completed f order Imager.no_results (fs w) r (fs w')).
Proof.
  unfold Imager.sweep. intros Hrun.
  rewrite (for_each_getitem sorted_ltsv_list _
             (numpy.enumerate sorted_ltsv_list)
             (fun j Ltsv r =>
                for_each (reverse (seq 0 (length sorted_l1_list)))
                  (fun i r =>
                     L1 <- getitem sorted_l1_list i ;;
                     Imager.trial a f j Ltsv true i L1 r) r)) in Hrun
    by apply enumerate_indices.
  apply outer_loop_inv in Hrun. unfold numpy.enumerate in Hrun.
  rewrite snd_zip in Hrun by (rewrite length_seq; lia). exact Hrun.
Qed.

(** The result lists that a sequence of completed trials leaves. *)
Lemma completed_results f v r m r' m' :
  completed f v r m r' m' ->
  Imager.result_L1 r' = Imager.result_L1 r ++ v.*1
  /\ Imager.result_Ltsv r' = Imager.result_Ltsv r ++ v.*2
  /\ Imager.result_image r' = Imager.result_image r ++ (image_of_pair <$> v)
  /\ exists mses, length mses = length v
       /\ Imager.result_mse r' = Imager.result_mse r ++ mses.
Proof.
  induction 1 as [r m | q1 q2 mse img v r m r' m' _ IH].
  - rewrite !fmap_nil, !app_nil_r. repeat split.
    exists []. by rewrite app_nil_r.
  - destruct IH as (-> & -> & -> & mses & Hlen & ->).
    rewrite !fmap_cons. cbn [push Imager.result_L1 Imager.result_Ltsv
      Imager.result_image Imager.result_mse image_of_pair fst snd].
    rewrite <- !app_assoc. repeat split.
    exists (mse :: mses). split; [simpl; by rewrite Hlen | done].
Qed.




End sweep_facts.

(** ** Sorting the candidates *)

Section argsort_facts.
Context {A : Type} (leb : A -> A -> bool).
Hypothesis leb_total : forall x y, leb x y = false -> leb y x = true.

Let le (x y : A) : Prop := leb x y = true.
Let le_snd (p q : nat * A) : Prop := le p.2 q.2.

Lemma insert_by_Permutation x l : numpy.insert_by leb x l ≡ₚ x :: l.
Proof.
  induction l as [|y l IH]; simpl; [done|].
  destruct (leb x.2 y.2); [done|]. rewrite IH. apply Permutation_swap.
Qed.

Lemma insert_by_Sorted x l :
  Sorted le_snd l -> Sorted le_snd (numpy.insert_by leb x l).
Proof.
  induction 1 as [|y l Hl IH Hhd]; simpl.
  - by repeat constructor.
  - destruct (leb x.2 y.2) eqn:Hxy.
    + repeat constructor; done.
    + constructor; [done|].
      destruct Hhd as [|z l Hyz]; simpl.
      * constructor. by apply leb_total.
      * destruct (leb x.2 z.2); constructor; [by apply leb_total | done].
Qed.

Lemma sorted_pairs_Permutation ps : foldr (numpy.insert_by leb) [] ps ≡ₚ ps.
Proof.
  induction ps as [|p ps IH]; simpl; [done|].
  by rewrite insert_by_Permutation, IH.
Qed.

Lemma sorted_pairs_Sorted ps :
  Sorted le_snd (foldr (numpy.insert_by leb) [] ps).
Proof.
  induction ps as [|p ps IH]; simpl; [constructor|].
  by apply insert_by_Sorted.
Qed.

Lemma take_indexed (xs : list A) (ps : list (nat * A)) :
  Forall (fun p => xs !! p.1 = Some p.2) ps ->
  numpy.take xs ps.*1 = ps.*2.
Proof.
  unfold numpy.take. induction 1 as [|[i x] ps Hx _ IH]; simpl in *; [done|].
  rewrite Hx. simpl. by f_equal.
Qed.

Lemma enumerate_indexed (xs : list A) :
  Forall (fun p => xs !! p.1 = Some p.2) (numpy.enumerate xs).
Proof.
  pose proof (enumerate_indices xs) as Hall.
  apply Forall2_Forall_r with (Q := fun p => xs !! p.1 = Some p.2) in Hall;
    [done|].
  apply Forall_forall. by intros i _ [j x] [-> Hx].
Qed.

(** [xs[argsort(xs)]] is the second component of the sorted indexed
    elements. *)
Lemma take_argsort (xs : list A) :
  numpy.take xs (numpy.argsort leb xs)
  = (foldr (numpy.insert_by leb) [] (numpy.enumerate xs)).*2.
Proof.
  unfold numpy.argsort. apply take_indexed.
  rewrite sorted_pairs_Permutation. apply enumerate_indexed.
Qed.

Lemma take_argsort_Permutation (xs : list A) :
  numpy.take xs (numpy.argsort leb xs) ≡ₚ xs.
Proof.
  rewrite take_argsort, sorted_pairs_Permutation.
  unfold numpy.enumerate. by rewrite snd_zip by (rewrite length_seq; lia).
Qed.

Lemma take_argsort_Sorted (xs : list A) :
  Sorted le (numpy.take xs (numpy.argsort leb xs)).
Proof.
  rewrite take_argsort.
  apply (Sorted_fmap snd le_snd le); [done | apply sorted_pairs_Sorted].
Qed.
End argsort_facts.

Global Instance Qcle_trans' : Transitive Qcle.
Proof. exact Qcle_trans. Qed.

Global Instance Qcle_antisym' : AntiSymm (=) Qcle.
Proof. exact Qcle_antisym. Qed.

Lemma Sorted_weaken {A} (R R' : relation A) l :
  (forall x y, R x y -> R' x y) -> Sorted R l -> Sorted R' l.
Proof.
  intros HR. induction 1 as [|x l _ IH Hhd]; constructor; [done|].
  destruct Hhd; constructor; auto.
Qed.

Lemma sort_floats_Sorted xs : Sorted Qcle (sort_floats xs).
Proof.
  eapply Sorted_weaken; [|apply (take_argsort_Sorted Qc_leb Qc_leb_total)].
  intros x y Hxy. by apply Qc_leb_le.
Qed.

Lemma sort_floats_Permutation xs : sort_floats xs ≡ₚ xs.
Proof. apply take_argsort_Permutation. Qed.

(** The sorted candidates depend on the values only, not on the order
    in which they were given. *)
Lemma sort_floats_order_independent xs ys :
  xs ≡ₚ ys -> sort_floats xs = sort_floats ys.
Proof.
  intros Hperm. apply (Sorted_unique Qcle); try apply sort_floats_Sorted.
  by rewrite !sort_floats_Permutation.
Qed.

Lemma asarray_floats `{Collaborators} (xs : list Qc) :
  numpy.asarray (PyFloat <$> xs) = numpy.FloatArray xs.
Proof.
  unfold numpy.asarray.
  assert (forallb numpy.is_float (PyFloat <$> xs) = true) as ->
    by (induction xs; simpl; auto).
  f_equal. unfold numpy.floats. induction xs; simpl; [done | by f_equal].
Qed.

Lemma sorted_floats `{Collaborators} (xs : list Qc) :
  numpy.sorted (numpy.asarray (PyFloat <$> xs)) = PyFloat <$> sort_floats xs.
Proof. by rewrite asarray_floats. Qed.

(** ** Selecting the best trial *)

Lemma argmin_from_spec l : forall pre bi b,
  pre !! bi = Some b ->
  (forall i x, pre !! i = Some x -> (b ≤ x)%Qc) ->
  (forall i x, (i < bi)%nat -> pre !! i = Some x -> (b < x)%Qc) ->
  first_minimum (pre ++ l) (numpy.argmin_from bi b (length pre) l).
Proof.
  induction l as [|x l IH]; intros pre bi b Hbi Hmin Hfirst; simpl.
  - rewrite app_nil_r. exists b. auto.
  - replace (pre ++ x :: l) with ((pre ++ [x]) ++ l) by by rewrite <- app_assoc.
    replace (S (length pre)) with (length (pre ++ [x]))
      by (rewrite length_app; simpl; lia).
    destruct (Qc_ltb x b) eqn:Hlt.
    + apply Qc_ltb_lt in Hlt. apply IH.
      * by rewrite lookup_app_r, Nat.sub_diag.
      * intros i y Hy. apply lookup_app_Some in Hy as [Hy | [_ Hy]].
        -- apply Qclt_le_weak. eapply Qclt_le_trans; eauto.
        -- apply list_lookup_singleton_Some in Hy as [_ <-]. apply Qcle_refl.
      * intros i y Hi Hy. rewrite lookup_app_l in Hy by done.
        eapply Qclt_le_trans; eauto.
    + apply Qc_ltb_ge in Hlt. apply IH.
      * by apply lookup_app_l_Some.
      * intros i y Hy. apply lookup_app_Some in Hy as [Hy | [_ Hy]]; [eauto|].
        by apply list_lookup_singleton_Some in Hy as [_ <-].
      * intros i y Hi Hy. apply lookup_lt_Some in Hbi.
        rewrite lookup_app_l in Hy by lia. eauto.
Qed.

Lemma argmin_inv l w r w' :
  numpy.argmin l w = (r, w') ->
  w' = w /\ forall k, r = Ok k -> first_minimum l k.
Proof.
  destruct l as [|x l]; simpl; intros Hr; prim_inv Hr; split; try done.
  intros k [= <-]. apply (argmin_from_spec l [x] 0%nat x).
  - done.
  - intros [|i] y [= <-]. apply Qcle_refl.
  - lia.
Qed.

(** The first minimum is unique. *)
Lemma first_minimum_unique l k1 k2 :
  first_minimum l k1 -> first_minimum l k2 -> k1 = k2.
Proof.
  intros (m1 & Hk1 & Hmin1 & Hfirst1) (m2 & Hk2 & Hmin2 & Hfirst2).
  destruct (Nat.lt_trichotomy k1 k2) as [Hlt | [-> | Hlt]]; [|done|].
  - specialize (Hfirst2 _ _ Hlt Hk1). specialize (Hmin1 _ _ Hk2).
    by apply Qclt_not_le in Hfirst2.
  - specialize (Hfirst1 _ _ Hlt Hk2). specialize (Hmin2 _ _ Hk1).
    by apply Qclt_not_le in Hfirst1.
Qed.

(** ** Setting up and tearing down *)

Section prepare_facts.
Context `{Collaborators}.

Lemma initializecv_inv n w res w' :
  Imager.initializecv n w = (res, w') -> fs w' = fs w /\ trace w' = trace w.
Proof.
  unfold Imager.initializecv. intros Hrun.
  bind_split Hrun as o w1 E; prim_inv E.
  bind_split Hrun as u w1 E;
    (unfold assert in E; destruct (negb _); prim_inv E); [|done].
  destruct (visset (self w)) as [[]|]; try (by prim_inv Hrun);
    (bind_split Hrun as g w1 E; apply new_generator_inv in E as [-> _];
     [by prim_inv Hrun | done]).
Qed.

(** The stream and the store that [prepare] leaves for a given
    [datafile] argument. *)
Lemma prepare_inv a w res w0 :
  Imager.prepare a w = (res, w0) ->
  full_solves (trace w0) = full_solves (trace w)
  /\ solver_calls (trace w0) = solver_calls (trace w)
  /\ (forall sl1 sltsv f, res = Ok (sl1, sltsv, f) ->
      sl1 = numpy.sorted (numpy.asarray (Imager.l1_list a))
      /\ sltsv = numpy.sorted (numpy.asarray (Imager.ltsv_list a))
      /\ numpy.dtype (numpy.asarray (Imager.l1_list a)) <> "object"
      /\ numpy.dtype (numpy.asarray (Imager.ltsv_list a)) <> "object"
      /\ (Imager.imagepolicy a = "best" \/ Imager.imagepolicy a = "full")
      /\ f = (Imager.datafile a ≫= fun _ => Some "cvresult.dat")
      /\ fs w0 = match Imager.datafile a with
                 | Some _ => <["cvresult.dat" := Text ["# L1, Ltsv, MSE"]]> (fs w)
                 | None => fs w
                 end).
Proof.
  unfold Imager.prepare, Imager.raise_ArgumentError. intros Hrun.
  destruct (negb _) eqn:Hpolicy; [by prim_inv Hrun|].
  apply negb_false_iff, bool_decide_eq_true in Hpolicy.
  rewrite elem_of_cons, list_elem_of_singleton in Hpolicy.
  destruct (decide (_ = "object")) as [|Hd1]; [by prim_inv Hrun|].
  destruct (decide (_ = "object")) as [|Hd2]; [by prim_inv Hrun|].
  bind_cases Hrun E; apply plotter_init_inv in E as (Hs1 & Hf1 & Ht1 & _).
  2:{ split; [|split; [|done]]; destruct Ht1 as [-> | ->];
        rewrite ?full_solves_app, ?solver_calls_app, ?app_nil_r; done. }
  assert (full_solves (trace x0) = full_solves (trace w)
          /\ solver_calls (trace x0) = solver_calls (trace w)) as [Hfull1 Hcall1].
  { destruct Ht1 as [-> | ->]; [done|].
    by rewrite full_solves_app, solver_calls_app, !app_nil_r. }
  assert (exists w2 f,
    f = (Imager.datafile a ≫= fun _ => Some "cvresult.dat")
    /\ match Imager.datafile a with
       | Some _ => open_w "cvresult.dat"
       | None => open_devnull
       end x0 = (Ok f, w2)
    /\ print_to f "# L1, Ltsv, MSE" w2
       = (Ok tt, set_fs match Imager.datafile a with
                        | Some _ => <["cvresult.dat" := Text ["# L1, Ltsv, MSE"]]> (fs w)
                        | None => fs w
                        end w2)
    /\ full_solves (trace w2) = full_solves (trace w)
    /\ solver_calls (trace w2) = solver_calls (trace w))
    as (w2 & f & Hf & Hopen & Hprint & Hfull2 & Hcall2).
  { destruct (Imager.datafile a); simpl.
    - eexists _, _. split; [done|]. split; [reflexivity|]. simpl.
      rewrite full_solves_app, solver_calls_app, !app_nil_r.
      split; [|done]. unfold print_to, bind, get_fs, put_fs; simpl.
      by rewrite alter_insert_eq, Hf1.
    - exists x0, None. repeat split; try done.
      simpl. rewrite <- Hf1. by destruct x0. }
  rewrite (bind_step _ _ _ _ _ Hopen) in Hrun.
  rewrite (bind_step _ _ _ _ _ Hprint) in Hrun.
  bind_cases Hrun E; apply initializecv_inv in E as [Hfs Htr]; simpl in *.
  - prim_inv Hrun. rewrite Htr. split; [done|]. split; [done|].
    intros sl1 sltsv f' [= <- <- <-]. by repeat split.
  - by rewrite Htr.
Qed.

Lemma finalizecv_eq w :
  Imager.finalizecv w
  = (Ok tt, set_self (Imager.with_visset PyNone (self w)) w).
Proof. reflexivity. Qed.

End prepare_facts.

(** ** Removing the intermediate images *)

Lemma remove_present path content w :
  fs w !! path = Some content ->
  os.remove path w
  = (Ok tt, set_fs (delete path (fs w)) (add_event (EvRemove path) w)).
Proof.
  intros Hpath. unfold os.remove, bind, get_fs, emit, put_fs.
  by rewrite Hpath.
Qed.

Lemma remove_missing path w :
  fs w !! path = None -> os.remove path w = (Raise (OSError path), w).
Proof.
  intros Hpath. unfold os.remove, bind, get_fs. by rewrite Hpath.
Qed.

Lemma remove_images_cons path l w :
  Imager.remove_images (path :: l) w
  = (os.remove path ;; Imager.remove_images l) w.
Proof.
  unfold Imager.remove_images. simpl. apply bind_ext_r. by intros [].
Qed.

(** A cleanup that completes has removed pairwise distinct paths that
    were all present, in list order. *)
Lemma remove_images_Ok l w w' :
  Imager.remove_images l w = (Ok tt, w') ->
  NoDup l
  /\ (forall path, path ∈ l -> is_Some (fs w !! path))
  /\ (forall path, path ∈ l -> fs w' !! path = None)
  /\ (forall path, path ∉ l -> fs w' !! path = fs w !! path)
  /\ trace w' = trace w ++ (EvRemove <$> l)
  /\ self w' = self w.
Proof.
  revert w. induction l as [|x l IH]; intros w Hrun.
  - injection Hrun as <-. rewrite app_nil_r.
    repeat split; [constructor | | | done..]; by intros ? ?%elem_of_nil.
  - rewrite remove_images_cons in Hrun. bind_cases Hrun E.
    destruct (fs w !! x) as [content|] eqn:Hx;
      [|rewrite remove_missing in E by done; discriminate].
    rewrite (remove_present _ _ _ Hx) in E. injection E as <- <-.
    apply IH in Hrun as (Hnd & Hpres & Hgone & Hkeep & Htr & Hself).
    simpl in *.
    assert (x ∉ l) as Hxl.
    { intros Hin. destruct (Hpres _ Hin) as [c Hc].
      by rewrite lookup_delete_eq in Hc. }
    repeat split.
    + by constructor.
    + intros path [-> | Hin]%elem_of_cons; [by rewrite Hx|].
      destruct (Hpres _ Hin) as [c Hc].
      apply lookup_delete_Some in Hc as [_ Hc]. by rewrite Hc.
    + intros path [-> | Hin]%elem_of_cons; [|by apply Hgone].
      rewrite Hkeep by done. apply lookup_delete_eq.
    + intros path Hnot. rewrite not_elem_of_cons in Hnot.
      destruct Hnot as [Hne Hnot]. rewrite Hkeep by done.
      by apply lookup_delete_ne.
    + by rewrite Htr, <- app_assoc.
    + done.
Qed.

Lemma remove_images_complete l : forall w,
  NoDup l -> (forall path, path ∈ l -> is_Some (fs w !! path)) ->
  exists w', Imager.remove_images l w = (Ok tt, w').
Proof.
  induction l as [|x l IH]; intros w Hnd Hpres.
  - by eexists.
  - apply NoDup_cons in Hnd as [Hxl Hnd].
    destruct (Hpres x) as [content Hx]; [by left|].
    rewrite remove_images_cons.
    erewrite bind_step by (by eapply remove_present).
    apply IH; [done|]. intros path Hin. simpl.
    rewrite lookup_delete_ne by (intros ->; done).
    apply Hpres. by right.
Qed.

(** A cleanup that meets a path which is no longer there raises. *)
Lemma remove_images_missing l : forall w path,
  path ∈ l -> fs w !! path = None ->
  exists missing w',
    Imager.remove_images l w = (Raise (OSError missing), w')
    /\ missing ∈ l.
Proof.
  induction l as [|x l IH]; intros w path Hin Hnone.
  - by apply elem_of_nil in Hin.
  - rewrite remove_images_cons.
    destruct (fs w !! x) as [content|] eqn:Hx.
    + erewrite bind_step by (by eapply remove_present).
      apply elem_of_cons in Hin as [-> | Hin]; [congruence|].
      destruct (IH (set_fs (delete x (fs w)) (add_event (EvRemove x) w)) path)
        as (missing & w' & Hrun & Hmiss); [done | |].
      * simpl. apply lookup_delete_None. auto.
      * exists missing, w'. split; [done | by right].
    + erewrite bind_raise by (by apply remove_missing).
      exists x, w. split; [done | by left].
Qed.

(** ** From the result lists to the returned dictionary *)

Lemma getitem_inv {A} (l : list A) i w r w' :
  getitem l i w = (r, w') -> w' = w /\ forall x, r = Ok x -> l !! i = Some x.
Proof.
  unfold getitem. destruct (l !! i); intros Hr; prim_inv Hr; split; try done.
  by intros ? [= <-].
Qed.

Lemma where_first_inv v l i w r w' :
  numpy.where_first v l i w = (r, w') -> w' = w.
Proof.
  revert i. induction l as [|x l IH]; intros i; simpl.
  - intros Hr. by prim_inv Hr.
  - destruct (decide (x = v)); [intros Hr; by prim_inv Hr | apply IH].
Qed.

Section conclude_facts.
Context `{Collaborators}.

Lemma conclude_inv a sorted_l1_list sorted_ltsv_list r w d w' :
  Imager.conclude a sorted_l1_list sorted_ltsv_list r w = (Ok d, w') ->
  exists k best_image best_L1 best_Ltsv content plots,
    first_minimum (Imager.result_mse r) k
    /\ Imager.result_image r !! k = Some best_image
    /\ Imager.result_L1 r !! k = Some best_L1
    /\ Imager.result_Ltsv r !! k = Some best_Ltsv
    /\ d = {[ "L1" := best_L1; "Ltsv" := best_Ltsv ]}
    /\ with_figure a (fs w) !! best_image = Some content
    /\ best_image <> Imager.final_imagename a
    /\ Forall is_plot plots
    /\ let w1 := {| self := self w;
                    fs := <[Imager.final_imagename a := content]>
                            (with_figure a (fs w));
                    trace := trace w ++ plots
                             ++ [EvCopy best_image (Imager.final_imagename a)] |} in
       (Imager.imagepolicy a = "full" /\ w' = w1)
       \/ (Imager.imagepolicy a = "best"
           /\ Imager.remove_images (Imager.result_image r) w1 = (Ok tt, w')).
Proof.
  unfold Imager.conclude. intros Hrun.
  bind_split Hrun as k w1 E. apply argmin_inv in E as [-> Hk].
  specialize (Hk _ eq_refl).
  bind_split Hrun as best_mse w1 E. apply getitem_inv in E as [-> Hmse].
  bind_split Hrun as best_image w1 E. apply getitem_inv in E as [-> Himage].
  specialize (Himage _ eq_refl).
  bind_split Hrun as best_L1 w1 E. apply getitem_inv in E as [-> HL1].
  specialize (HL1 _ eq_refl).
  bind_split Hrun as best_Ltsv w1 E. apply getitem_inv in E as [-> HLtsv].
  specialize (HLtsv _ eq_refl).
  bind_split Hrun as L1_index w1 E. apply where_first_inv in E as ->.
  bind_split Hrun as Ltsv_index w1 E. apply where_first_inv in E as ->.
  bind_split Hrun as u1 w1 E.
  assert (exists plots1, Forall is_plot plots1 /\ self w1 = self w
            /\ fs w1 = fs w /\ trace w1 = trace w ++ plots1)
    as (plots1 & Hp1 & Hs1 & Hf1 & Ht1).
  { destruct (Qc_leb _ _).
    - apply plotter_inv in E as (_ & ? & ? & [-> | ->]); [| |done].
      + exists []. by rewrite app_nil_r.
      + eexists [_]. repeat split; try done. by repeat constructor.
    - prim_inv E. exists []. by rewrite app_nil_r. }
  clear E. bind_split Hrun as u2 w2 E.
  apply plotter_inv in E as (_ & Hs2 & Hf2 & Ht2); [|done].
  assert (exists plots2, Forall is_plot plots2
            /\ trace w2 = trace w ++ plots2) as (plots2 & Hp2 & Ht2').
  { destruct Ht2 as [-> | ->]; rewrite Ht1; [by eauto|].
    exists (plots1 ++ [EvDraw]). rewrite app_assoc. split; [|done].
    apply Forall_app. split; [done | by repeat constructor]. }
  bind_split Hrun as u3 w3 E.
  assert (exists plots3, Forall is_plot plots3 /\ self w3 = self w
            /\ fs w3 = with_figure a (fs w) /\ trace w3 = trace w ++ plots3)
    as (plots & Hp3 & Hs3 & Hf3 & Ht3).
  { unfold with_figure. destruct (Imager.figfile a) as [name|].
    - apply plotter_savefig_inv in E as (_ & ? & Hf & [-> | ->]).
      + exists plots2. rewrite Hf, Hf2, Hf1. repeat split; congruence.
      + exists (plots2 ++ [EvSaveFig name]). rewrite Ht2', app_assoc.
        rewrite Hf, Hf2, Hf1. repeat split; try congruence.
        apply Forall_app. split; [done | by repeat constructor].
    - prim_inv E. exists plots2. repeat split; congruence. }
  clear E. bind_split Hrun as u4 w4 E.
  unfold shutil.copy2 in E. bind_split E as m w5 E'. prim_inv E'.
  destruct (fs w3 !! best_image) as [content|] eqn:Hbest; [|by prim_inv E].
  destruct (decide (best_image = _)) as [|Hne]; [by prim_inv E|].
  bind_split E as u5 w5 E'. prim_inv E'. prim_inv E.
  bind_split Hrun as u6 w6 E.
  exists k, best_image, best_L1, best_Ltsv, content, plots.
  rewrite Hf3 in Hbest. repeat split; try done; [by prim_inv Hrun|].
  simpl. unfold add_event, set_fs in E. simpl in E.
  rewrite Hs3, Hf3, Ht3, <- app_assoc in E.
  destruct (decide (Imager.imagepolicy a = "full")) as [Hfull|_].
  - left. prim_inv E. prim_inv Hrun. done.
  - destruct (decide (Imager.imagepolicy a = "best")) as [Hbest'|_].
    + right. destruct u6. prim_inv Hrun. done.
    + discriminate E.
Qed.

End conclude_facts.

(** ** The whole search *)

Section search_facts.
Context `{Collaborators}.

(** A completed search is a completed set-up, a completed sweep, the end
    of the session and a completed selection. *)
Lemma cvforgridvis_inv a w d w' :
  Imager.cvforgridvis a w = (Ok d, w') ->
  exists sl1 sltsv f w0 r w1,
    Imager.prepare a w = (Ok (sl1, sltsv, f), w0)
    /\ Imager.sweep a f sl1 sltsv w0 = (Ok r, w1)
    /\ Imager.conclude a sl1 sltsv r
         (set_self (Imager.with_visset PyNone (self w1)) w1) = (Ok d, w').
Proof.
  unfold Imager.cvforgridvis. intros Hrun.
  bind_split Hrun as [[sl1 sltsv] f] w0 Hprep.
  bind_split Hrun as r w1 Hsweep.
  bind_split Hrun as u w2 Hfin. rewrite finalizecv_eq in Hfin.
  injection Hfin as <- <-. by exists sl1, sltsv, f, w0, r, w1.
Qed.

Lemma remove_images_quiet l w res w' :
  Imager.remove_images l w = (res, w') ->
  full_solves (trace w') = full_solves (trace w)
  /\ solver_calls (trace w') = solver_calls (trace w).
Proof.
  unfold Imager.remove_images.
  apply (for_each_inv (fun w1 =>
    full_solves (trace w1) = full_solves (trace w)
    /\ solver_calls (trace w1) = solver_calls (trace w))); [|done].
  intros path [] w1 res1 w2 [Hfull Hcalls] Hrm.
  destruct (fs w1 !! path) as [content|] eqn:Hpath.
  - rewrite (remove_present _ _ _ Hpath) in Hrm. injection Hrm as <- <-.
    simpl. by rewrite full_solves_app, solver_calls_app, !app_nil_r.
  - rewrite remove_missing in Hrm by done. by injection Hrm as <- <-.
Qed.

(** The selection calls the plotter and the file system, never the
    solver. *)
Lemma conclude_quiet a sl1 sltsv r w res w' :
  Imager.conclude a sl1 sltsv r w = (res, w') ->
  full_solves (trace w') = full_solves (trace w)
  /\ solver_calls (trace w') = solver_calls (trace w).
Proof.
  unfold Imager.conclude. intros Hrun.
  bind_split Hrun as k w1 E; apply argmin_inv in E as [-> _]; [|done].
  bind_split Hrun as best_mse w1 E; apply getitem_inv in E as [-> _]; [|done].
  bind_split Hrun as best_image w1 E; apply getitem_inv in E as [-> _]; [|done].
  bind_split Hrun as best_L1 w1 E; apply getitem_inv in E as [-> _]; [|done].
  bind_split Hrun as best_Ltsv w1 E; apply getitem_inv in E as [-> _]; [|done].
  bind_split Hrun as L1_index w1 E; apply where_first_inv in E as ->; [|done].
  bind_split Hrun as Ltsv_index w1 E; apply where_first_inv in E as ->; [|done].
  assert (forall call w1 res1 w2,
    is_plot call -> Imager.plotter a call w1 = (res1, w2) ->
    full_solves (trace w2) = full_solves (trace w1)
    /\ solver_calls (trace w2) = solver_calls (trace w1)) as Hplot.
  { intros call w1 res1 w2 Hcall Hp.
    assert (trace w2 = trace w1 \/ trace w2 = trace w1 ++ [call])
      as [-> | ->]; [|done|].
    - destruct call; try done.
      + by apply plotter_init_inv in Hp as (_ & _ & ? & _).
      + by apply plotter_inv in Hp as (_ & _ & _ & ?).
      + by apply plotter_inv in Hp as (_ & _ & _ & ?).
      + by apply plotter_inv in Hp as (_ & _ & _ & ?).
      + by apply plotter_savefig_inv in Hp as (_ & _ & _ & ?).
    - rewrite full_solves_app, solver_calls_app.
      destruct call; try done; simpl; by rewrite !app_nil_r. }
  bind_split Hrun as u1 w1 E.
  2:{ destruct (Qc_leb _ _); [|by prim_inv E].
      by apply Hplot in E as (? & ?). }
  assert (full_solves (trace w1) = full_solves (trace w)
          /\ solver_calls (trace w1) = solver_calls (trace w)) as [Hf1 Hc1].
  { destruct (Qc_leb _ _); [|by prim_inv E].
    by apply Hplot in E as (? & ?). }
  clear E. bind_split Hrun as u2 w2 E;
    apply Hplot in E as (Hf2 & Hc2); [|done | split; congruence | done].
  bind_split Hrun as u3 w3 E.
  2:{ destruct (Imager.figfile a); [|prim_inv E; split; congruence].
      apply Hplot in E as (? & ?); [split; congruence | done]. }
  assert (full_solves (trace w3) = full_solves (trace w)
          /\ solver_calls (trace w3) = solver_calls (trace w)) as [Hf3 Hc3].
  { destruct (Imager.figfile a); [|prim_inv E; split; congruence].
    apply Hplot in E as (? & ?); [split; congruence | done]. }
  clear E.
  assert (forall res1 w4, shutil.copy2 best_image (Imager.final_imagename a) w3
                          = (res1, w4) ->
    full_solves (trace w4) = full_solves (trace w)
    /\ solver_calls (trace w4) = solver_calls (trace w)) as Hcopy.
  { intros res1 w4. unfold shutil.copy2, bind, get_fs, emit, put_fs, raise.
    destruct (fs w3 !! best_image); [|by intros [= <- <-]].
    destruct (decide (best_image = Imager.final_imagename a)); simpl;
      intros [= <- <-]; [done|]. simpl.
    by rewrite full_solves_app, solver_calls_app, !app_nil_r. }
  bind_split Hrun as u4 w4 E; apply Hcopy in E as [Hf4 Hc4]; [|done].
  bind_split Hrun as u5 w5 E.
  - prim_inv Hrun.
    destruct (decide (Imager.imagepolicy a = "full")); [prim_inv E; by split|].
    destruct (decide (Imager.imagepolicy a = "best")); [|discriminate E].
    apply remove_images_quiet in E as [? ?]. split; congruence.
  - destruct (decide (Imager.imagepolicy a = "full")); [prim_inv E|].
    destruct (decide (Imager.imagepolicy a = "best")); [|prim_inv E; by split].
    apply remove_images_quiet in E as [? ?]. split; congruence.
Qed.

End search_facts.

Section search_order.
Context `{Collaborators}.

(** The full-data reconstructions of a search, whatever its outcome, are
    an initial part of the sweep order over the sorted candidates, and
    all of it when the search completes. *)
Lemma cvforgridvis_full_solves a w res w' :
  Imager.cvforgridvis a w = (res, w') ->
  let order := visit_order (numpy.sorted (numpy.asarray (Imager.l1_list a)))
                 (numpy.sorted (numpy.asarray (Imager.ltsv_list a))) in
  (exists visited, visited `prefix_of` order
     /\ full_solves (trace w') = full_solves (trace w) ++ visited)
  /\ (forall d, res = Ok d ->
      full_solves (trace w') = full_solves (trace w) ++ order).
Proof.
  intros Hrun order. unfold Imager.cvforgridvis in Hrun.
  bind_split Hrun as [[sl1 sltsv] f] w0 Hprep;
    apply prepare_inv in Hprep as (Hfull0 & _ & Hok).
  2:{ split; [|done]. exists []. split; [apply prefix_nil|].
      by rewrite app_nil_r. }
  destruct (Hok _ _ _ eq_refl) as (-> & -> & _). clear Hok.
  bind_split Hrun as r w1 Hsweep;
    apply sweep_inv in Hsweep as [(visited & Hpre & Hvis) Hdone];
    rewrite Hfull0 in Hvis.
  2:{ split; [|done]. by exists visited. }
  destruct (Hdone _ eq_refl) as [Hall _]. rewrite Hfull0 in Hall.
  bind_split Hrun as u w2 Hfin; rewrite finalizecv_eq in Hfin;
    [|discriminate Hfin].
  injection Hfin as <- <-. apply conclude_quiet in Hrun as [Hq _].
  simpl in Hq. rewrite Hq, Hall. split; [|done].
  by exists order.
Qed.

End search_order.

(** * The claims *)

(** C1. When a search completes, the returned [L1] and [Ltsv] are those
    of one trial of the sweep: the trial at the first index, in sweep
    order, at which the recorded mean square errors take their minimum.
    No recorded error is smaller, and every error recorded earlier is
    strictly larger, so a tie is resolved in favour of the trial visited
    first. *)
Theorem best_is_first_minimum `{Collaborators} a w d w' :
  Imager.cvforgridvis a w = (Ok d, w') ->
  exists sl1 sltsv f w0 r w1 k best_L1 best_Ltsv,
    Imager.prepare a w = (Ok (sl1, sltsv, f), w0)
    /\ Imager.sweep a f sl1 sltsv w0 = (Ok r, w1)
    /\ zip (Imager.result_L1 r) (Imager.result_Ltsv r) = visit_order sl1 sltsv
    /\ length (Imager.result_mse r) = length (visit_order sl1 sltsv)
    /\ first_minimum (Imager.result_mse r) k
    /\ Imager.result_L1 r !! k = Some best_L1
    /\ Imager.result_Ltsv r !! k = Some best_Ltsv
    /\ d !! "L1" = Some best_L1
    /\ d !! "Ltsv" = Some best_Ltsv.
Proof.
  intros Hrun.
  apply cvforgridvis_inv in Hrun
    as (sl1 & sltsv & f & w0 & r & w1 & Hprep & Hsweep & Hconc).
  destruct (sweep_inv _ _ _ _ _ _ _ Hsweep) as [_ Hdone].
  destruct (Hdone _ eq_refl) as [_ Hcomp].
  apply completed_results in Hcomp as (HL1 & HLtsv & _ & mses & Hlen & Hmse).
  simpl in HL1, HLtsv, Hmse.
  apply conclude_inv in Hconc
    as (k & best_image & best_L1 & best_Ltsv & content & plots
        & Hmin & _ & Hk1 & Hk2 & -> & _).
  exists sl1, sltsv, f, w0, r, w1, k, best_L1, best_Ltsv.
  repeat split; try done.
  - rewrite HL1, HLtsv. apply zip_fst_snd.
  - by rewrite Hmse.
Qed.

(** The selection example of the specification: four trials whose mean
    square errors are 0.5, 0.3, 0.9 and 0.4. *)
Lemma best_is_first_minimum_witness :
  let d := Demo.returned ∅ Demo.search in
  let w' := Demo.final Demo.search in
  Demo.search = (Ok d, w')
  /\ d !! "L1" = Some (PyFloat (flt 1 1000))
  /\ d !! "Ltsv" = Some (PyFloat (flt 1 100))
  /\ exists sl1 sltsv f w0 r w1 k best_L1 best_Ltsv,
       @Imager.prepare Demo.collaborators (Demo.args "full" None) Demo.start
       = (Ok (sl1, sltsv, f), w0)
       /\ @Imager.sweep Demo.collaborators (Demo.args "full" None) f sl1 sltsv w0
          = (Ok r, w1)
       /\ zip (Imager.result_L1 r) (Imager.result_Ltsv r) = visit_order sl1 sltsv
       /\ length (Imager.result_mse r) = length (visit_order sl1 sltsv)
       /\ first_minimum (Imager.result_mse r) k
       /\ Imager.result_L1 r !! k = Some best_L1
       /\ Imager.result_Ltsv r !! k = Some best_Ltsv
       /\ d !! "L1" = Some best_L1
       /\ d !! "Ltsv" = Some best_Ltsv.
Proof.
  intros d w'.
  split; [vm_compute; reflexivity|].
  split; [vm_compute; reflexivity|].
  split; [vm_compute; reflexivity|].
  apply (@best_is_first_minimum Demo.collaborators (Demo.args "full" None)
           Demo.start d w').
  vm_compute. reflexivity.
Defined.

(** C2. The candidates are sorted by value, whatever the order they were
    given in, and the trials are visited with [Ltsv] ascending in the
    outer loop and [L1] descending in the inner loop: the full-data
    reconstructions of a search follow that order, all of it when the
    search completes and an initial part of it when the search is
    interrupted by an exception.  For [Ltsv] candidates [1e-2, 1e-1] and
    [L1] candidates [1e-3, 1e-2] the order is (1e-2,1e-2), (1e-3,1e-2),
    (1e-2,1e-1), (1e-3,1e-1). *)
Theorem sweep_visits_in_order `{Collaborators} a w res w' (l1s ltsvs : list Qc) :
  Imager.l1_list a = PyFloat <$> l1s ->
  Imager.ltsv_list a = PyFloat <$> ltsvs ->
  Imager.cvforgridvis a w = (res, w') ->
  let order := visit_order (PyFloat <$> sort_floats l1s)
                 (PyFloat <$> sort_floats ltsvs) in
  (Sorted Qcle (sort_floats l1s) /\ sort_floats l1s ≡ₚ l1s
   /\ forall l1s', l1s' ≡ₚ l1s -> sort_floats l1s' = sort_floats l1s)
  /\ (Sorted Qcle (sort_floats ltsvs) /\ sort_floats ltsvs ≡ₚ ltsvs
      /\ forall ltsvs', ltsvs' ≡ₚ ltsvs -> sort_floats ltsvs' = sort_floats ltsvs)
  /\ (exists visited, visited `prefix_of` order
        /\ full_solves (trace w') = full_solves (trace w) ++ visited)
  /\ (forall d, res = Ok d ->
        full_solves (trace w') = full_solves (trace w) ++ order)
  /\ visit_order (PyFloat <$> sort_floats [flt 1 1000; flt 1 100])
       (PyFloat <$> sort_floats [flt 1 100; flt 1 10])
     = [(PyFloat (flt 1 100), PyFloat (flt 1 100));
        (PyFloat (flt 1 1000), PyFloat (flt 1 100));
        (PyFloat (flt 1 100), PyFloat (flt 1 10));
        (PyFloat (flt 1 1000), PyFloat (flt 1 10))].
Proof.
  intros Hl1 Hltsv Hrun order.
  split; [|split].
  - split; [apply sort_floats_Sorted|]. split; [apply sort_floats_Permutation|].
    intros l1s' Hperm. by apply sort_floats_order_independent.
  - split; [apply sort_floats_Sorted|]. split; [apply sort_floats_Permutation|].
    intros ltsvs' Hperm. by apply sort_floats_order_independent.
  - apply cvforgridvis_full_solves in Hrun.
    rewrite Hl1, Hltsv, !sorted_floats in Hrun.
    destruct Hrun as [Hvis Hdone]. split; [exact Hvis|].
    split; [exact Hdone|]. vm_compute. reflexivity.
Qed.

Lemma sweep_visits_in_order_witness :
  Demo.search = (Ok (Demo.returned ∅ Demo.search), Demo.final Demo.search)
  /\ full_solves (trace (Demo.final Demo.search))
     = [(PyFloat (flt 1 100), PyFloat (flt 1 100));
        (PyFloat (flt 1 1000), PyFloat (flt 1 100));
        (PyFloat (flt 1 100), PyFloat (flt 1 10));
        (PyFloat (flt 1 1000), PyFloat (flt 1 10))].
Proof.
  assert (Demo.search
          = (Ok (Demo.returned ∅ Demo.search), Demo.final Demo.search))
    as Hrun by (vm_compute; reflexivity).
  split; [exact Hrun|].
  destruct (@sweep_visits_in_order Demo.collaborators
              (Demo.args "full" None) Demo.start _ _
              [flt 1 1000; flt 1 100] [flt 1 100; flt 1 10]
              eq_refl eq_refl Hrun) as (_ & _ & _ & Hdone & Hex).
  rewrite Hex in Hdone. exact (Hdone _ eq_refl).
Defined.

(** C4. The dictionary returned by a completed search holds the winning
    [L1] under ['L1'] and the winning [Ltsv] under ['Ltsv'], and nothing
    else: there is no ['image'] entry. *)
Theorem returned_record_has_no_image `{Collaborators} a w d w' :
  Imager.cvforgridvis a w = (Ok d, w') ->
  is_Some (d !! "L1") /\ is_Some (d !! "Ltsv") /\ d !! "image" = None
  /\ dom d = {[ "L1"; "Ltsv" ]}.
Proof.
  intros Hrun.
  apply cvforgridvis_inv in Hrun
    as (sl1 & sltsv & f & w0 & r & w1 & _ & _ & Hconc).
  apply conclude_inv in Hconc
    as (k & best_image & best_L1 & best_Ltsv & content & plots
        & _ & _ & _ & _ & -> & _).
  split; [by eexists|]. split; [by eexists|]. split; [done|].
  by rewrite dom_insert_L, dom_singleton_L.
Qed.

Lemma returned_record_has_no_image_witness :
  let d := Demo.returned ∅ Demo.search in
  Demo.search = (Ok d, Demo.final Demo.search)
  /\ is_Some (d !! "L1") /\ is_Some (d !! "Ltsv") /\ d !! "image" = None
  /\ dom d = {[ "L1"; "Ltsv" ]}.
Proof.
  intros d.
  assert (Demo.search = (Ok d, Demo.final Demo.search)) as Hrun
    by (vm_compute; reflexivity).
  split; [exact Hrun|].
  exact (@returned_record_has_no_image Demo.collaborators _ _ _ _ Hrun).
Defined.

(** ** Cleanup *)

Lemma remove_images_duplicate l : forall w,
  ~ NoDup l ->
  exists missing w',
    Imager.remove_images l w = (Raise (OSError missing), w') /\ missing ∈ l.
Proof.
  induction l as [|x l IH]; intros w Hdup.
  - destruct Hdup. constructor.
  - rewrite remove_images_cons.
    destruct (fs w !! x) as [content|] eqn:Hx.
    + erewrite bind_step by (by eapply remove_present).
      destruct (decide (x ∈ l)) as [Hin | Hnotin].
      * destruct (remove_images_missing l
                    (set_fs (delete x (fs w)) (add_event (EvRemove x) w)) x)
          as (missing & w' & Hrun & Hmiss); [done | apply lookup_delete_eq |].
        exists missing, w'. split; [done | by right].
      * destruct (IH (set_fs (delete x (fs w)) (add_event (EvRemove x) w)))
          as (missing & w' & Hrun & Hmiss).
        { intros Hnd. apply Hdup. by constructor. }
        exists missing, w'. split; [done | by right].
    + erewrite bind_raise by (by apply remove_missing).
      exists x, w. split; [done | by left].
Qed.

(** Whatever its outcome, the cleanup has removed an initial part of the
    list, in list order; it ends at the first path that is not there. *)
Lemma remove_images_trace l : forall w res w',
  Imager.remove_images l w = (res, w') ->
  exists removed,
    removed `prefix_of` l
    /\ trace w' = trace w ++ (EvRemove <$> removed)
    /\ ((res = Ok tt /\ removed = l)
        \/ exists missing,
             res = Raise (OSError missing)
             /\ (removed ++ [missing]) `prefix_of` l
             /\ fs w' !! missing = None).
Proof.
  induction l as [|x l IH]; intros w res w' Hrun.
  - injection Hrun as <- <-. exists []. rewrite app_nil_r.
    split; [done|]. split; [done | by left].
  - rewrite remove_images_cons in Hrun.
    destruct (fs w !! x) as [content|] eqn:Hx.
    + erewrite bind_step in Hrun by (by eapply remove_present).
      apply IH in Hrun as (removed & Hpre & Htr & Hres). simpl in Htr.
      exists (x :: removed). split; [by apply prefix_cons|].
      split; [by rewrite Htr, <- app_assoc|].
      destruct Hres as [[-> ->] | (missing & -> & Hpre' & Hgone)];
        [by left | right].
      exists missing. split; [done|]. split; [|done].
      simpl. by apply prefix_cons.
    + erewrite bind_raise in Hrun by (by apply remove_missing).
      injection Hrun as <- <-. exists []. rewrite app_nil_r.
      split; [apply prefix_nil|]. split; [done|]. right.
      exists x. split; [done|]. split; [|done].
      simpl. apply prefix_cons, prefix_nil.
Qed.

(** C7, as the code has it.  The cleanup deletes each recorded path once,
    in list order.  It completes when the paths are pairwise distinct and
    all present: the trace then gains one removal for each path, in the
    order of the list, none of the paths is left and every other file is
    as it was.  A path that is no longer there makes it raise [OSError]:
    a path recorded twice does, and so does every path on a second run of
    a cleanup that completed.  Whatever the outcome, the removals made
    are those of an initial part of the list, in list order, and the
    cleanup ends at the first path that is not there. *)
Theorem cleanup_deletes_each_path_once (l : list string) (w : world) :
  (NoDup l -> (forall path, path ∈ l -> is_Some (fs w !! path)) ->
   exists w', Imager.remove_images l w = (Ok tt, w')
     /\ trace w' = trace w ++ (EvRemove <$> l)
     /\ (forall path, path ∈ l -> fs w' !! path = None)
     /\ (forall path, path ∉ l -> fs w' !! path = fs w !! path)
     /\ (l <> [] ->
         exists missing w'',
           Imager.remove_images l w' = (Raise (OSError missing), w'')))
  /\ (~ NoDup l ->
      exists missing w', Imager.remove_images l w = (Raise (OSError missing), w'))
  /\ (forall path, path ∈ l -> fs w !! path = None ->
      exists missing w', Imager.remove_images l w = (Raise (OSError missing), w'))
  /\ (forall res w', Imager.remove_images l w = (res, w') ->
      exists removed,
        removed `prefix_of` l
        /\ trace w' = trace w ++ (EvRemove <$> removed)
        /\ ((res = Ok tt /\ removed = l)
            \/ exists missing,
                 res = Raise (OSError missing)
                 /\ (removed ++ [missing]) `prefix_of` l
                 /\ fs w' !! missing = None)).
Proof.
  split; [|split; [|split]].
  - intros Hnd Hpres.
    destruct (remove_images_complete l w Hnd Hpres) as [w' Hrun].
    exists w'. split; [done|].
    apply remove_images_Ok in Hrun as (_ & _ & Hgone & Hkeep & Htr & _).
    do 3 (split; [done|]).
    intros Hne. destruct l as [|x l]; [done|].
    destruct (remove_images_missing (x :: l) w' x) as (missing & w'' & Hrun & _);
      [by left | apply Hgone; by left | by eauto].
  - intros Hdup.
    destruct (remove_images_duplicate l w Hdup) as (missing & w' & Hrun & _).
    by eauto.
  - intros path Hin Hnone.
    destruct (remove_images_missing l w path Hin Hnone)
      as (missing & w' & Hrun & _).
    by eauto.
  - intros res w'. apply remove_images_trace.
Qed.

Lemma cleanup_deletes_each_path_once_witness :
  (exists w',
     Imager.remove_images ["L1_1_Ltsv_0.pickle"; "L1_0_Ltsv_0.pickle"]
       Demo.two_images = (Ok tt, w')
     /\ trace w'
        = [EvRemove "L1_1_Ltsv_0.pickle"; EvRemove "L1_0_Ltsv_0.pickle"]
     /\ fs w' !! "L1_1_Ltsv_0.pickle" = None
     /\ fs w' !! "L1_0_Ltsv_0.pickle" = None
     /\ exists missing w'',
          Imager.remove_images ["L1_1_Ltsv_0.pickle"; "L1_0_Ltsv_0.pickle"] w'
          = (Raise (OSError missing), w''))
  /\ (exists missing w',
        Imager.remove_images ["L1_0_Ltsv_0.pickle"; "L1_0_Ltsv_0.pickle"]
          Demo.one_image = (Raise (OSError missing), w')).
Proof.
  split.
  - destruct (cleanup_deletes_each_path_once
                ["L1_1_Ltsv_0.pickle"; "L1_0_Ltsv_0.pickle"] Demo.two_images)
      as (Hcomplete & _).
    destruct Hcomplete as (w' & Hrun & Htr & Hgone & _ & Hagain).
    + apply NoDup_cons. split; [|apply NoDup_singleton].
      rewrite list_elem_of_singleton. discriminate.
    + intros path [-> | ->%list_elem_of_singleton]%elem_of_cons;
        eexists; vm_compute; reflexivity.
    + exists w'. split; [exact Hrun|]. split; [exact Htr|].
      split; [apply Hgone; by left|].
      split; [apply Hgone; right; by left|].
      apply Hagain. discriminate.
  - apply (cleanup_deletes_each_path_once
             ["L1_0_Ltsv_0.pickle"; "L1_0_Ltsv_0.pickle"] Demo.one_image).
    intros [Hnot _]%NoDup_cons. apply Hnot. by left.
Defined.

(** C7 does not hold as stated: deleting an image that has already been
    deleted raises [OSError], both when one path is recorded for two
    trials (a search over the [L1] candidates 1 and 2 ends that way) and
    when a completed cleanup is run again. *)
Lemma cleanup_is_not_idempotent :
  Demo.search_same_name.1 = Raise (OSError "L1_0_Ltsv_0.pickle")
  /\ Imager.remove_images ["L1_0_Ltsv_0.pickle"; "L1_0_Ltsv_0.pickle"]
       Demo.one_image
     = (Raise (OSError "L1_0_Ltsv_0.pickle"),
        set_fs ∅ (add_event (EvRemove "L1_0_Ltsv_0.pickle") Demo.one_image))
  /\ exists w',
       Imager.remove_images ["L1_0_Ltsv_0.pickle"] Demo.one_image = (Ok tt, w')
       /\ Imager.remove_images ["L1_0_Ltsv_0.pickle"] w'
          = (Raise (OSError "L1_0_Ltsv_0.pickle"), w').
Proof.
  split; [vm_compute; reflexivity|].
  split; [vm_compute; reflexivity|].
  eexists. split; vm_compute; reflexivity.
Qed.

(** ** Invalid arguments *)

Section validation_facts.
Context `{Collaborators}.

Lemma trial_non_float a f j Ltsv ovw i L1 r w :
  numpy.is_float L1 = false \/ numpy.is_float Ltsv = false ->
  exists e, Imager.trial a f j Ltsv ovw i L1 r w = (Raise e, w).
Proof.
  intros Hnon. unfold Imager.trial.
  destruct (Imager.log10 L1 w) as [[e1|e] w1] eqn:E1;
    pose proof (log10_inv _ _ _ _ E1) as [-> Hq1].
  - erewrite bind_step by exact E1.
    destruct (Imager.log10 Ltsv w) as [[e2|e] w1] eqn:E2;
      pose proof (log10_inv _ _ _ _ E2) as [-> Hq2].
    + destruct (Hq1 _ eq_refl) as (q1 & -> & _).
      destruct (Hq2 _ eq_refl) as (q2 & -> & _).
      by destruct Hnon.
    + erewrite bind_raise by exact E2. by eexists.
  - erewrite bind_raise by exact E1. by eexists.
Qed.

Lemma inner_loop_non_float a f j Ltsv ovw (ps : list (nat * pyval)) r w res w' :
  Forall (fun v => numpy.is_float v = false) ps.*2
  \/ numpy.is_float Ltsv = false ->
  for_each ps (fun p r => Imager.trial a f j Ltsv ovw p.1 p.2 r) r w
  = (res, w') ->
  w' = w /\ forall r', res = Ok r' -> r' = r.
Proof.
  intros Hnon. destruct ps as [|[i L1] ps]; simpl.
  - intros Hrun. prim_inv Hrun. split; [done|]. by intros ? [= <-].
  - destruct (trial_non_float a f j Ltsv ovw i L1 r w) as [e Htrial].
    { destruct Hnon as [Hall | ?]; [left | by right].
      by apply Forall_cons in Hall as [? _]. }
    erewrite bind_raise by exact Htrial. by intros [= <- <-].
Qed.

Lemma sweep_non_float a f sorted_l1_list sorted_ltsv_list w res w' :
  Forall (fun v => numpy.is_float v = false) sorted_l1_list
  \/ Forall (fun v => numpy.is_float v = false) sorted_ltsv_list ->
  Imager.sweep a f sorted_l1_list sorted_ltsv_list w = (res, w') ->
  w' = w /\ forall r, res = Ok r -> r = Imager.no_results.
Proof.
  intros Hnon. unfold Imager.sweep.
  rewrite (for_each_getitem sorted_ltsv_list _
             (numpy.enumerate sorted_ltsv_list)
             (fun j Ltsv r =>
                for_each (reverse (seq 0 (length sorted_l1_list)))
                  (fun i r =>
                     L1 <- getitem sorted_l1_list i ;;
                     Imager.trial a f j Ltsv true i L1 r) r))
    by apply enumerate_indices.
  assert (Forall (fun v => numpy.is_float v = false) sorted_l1_list
          \/ Forall (fun v => numpy.is_float v = false)
               (numpy.enumerate sorted_ltsv_list).*2) as Hnon'.
  { unfold numpy.enumerate. by rewrite snd_zip by (rewrite length_seq; lia). }
  clear Hnon. revert Hnon'.
  generalize (numpy.enumerate sorted_ltsv_list) Imager.no_results.
  intros qs. induction qs as [|[j Ltsv] qs IH]; intros r Hnon; simpl.
  - intros Hrun. prim_inv Hrun. split; [done|]. by intros ? [= <-].
  - intros Hrun.
    assert (Forall (fun v => numpy.is_float v = false)
              (reverse (numpy.enumerate sorted_l1_list)).*2
            \/ numpy.is_float Ltsv = false) as Hrow.
    { destruct Hnon as [Hall | Hall]; [left | right].
      - rewrite fmap_reverse. apply Forall_reverse.
        unfold numpy.enumerate. by rewrite snd_zip by (rewrite length_seq; lia).
      - by apply Forall_cons in Hall as [? _]. }
    bind_split Hrun as r1 w1 E;
      (rewrite (for_each_getitem sorted_l1_list _
                  (reverse (numpy.enumerate sorted_l1_list))
                  (fun i L1 r => Imager.trial a f j Ltsv true i L1 r)) in E
         by (apply Forall2_reverse, enumerate_indices);
       apply (inner_loop_non_float _ _ _ _ _ _ _ _ _ _ Hrow) in E as [-> Hr]);
      [|done].
    rewrite (Hr _ eq_refl) in Hrun. apply IH in Hrun; [done|].
    destruct Hnon as [? | Hall]; [by left | right].
    by apply Forall_cons in Hall as [_ ?].
Qed.

(** A list with an entry that is not a float becomes a string array or
    an object array, and the sorted values of a string array are
    strings. *)
Lemma sorted_non_float l :
  (exists v, v ∈ l /\ numpy.is_float v = false) ->
  numpy.dtype (numpy.asarray l) <> "object" ->
  Forall (fun v => numpy.is_float v = false) (numpy.sorted (numpy.asarray l)).
Proof.
  intros (v & Hin & Hv) Hdtype. unfold numpy.asarray in *.
  destruct (forallb numpy.is_float l) eqn:Hall.
  - rewrite forallb_forall in Hall. apply list_elem_of_In in Hin.
    rewrite (Hall _ Hin) in Hv. discriminate.
  - destruct (forallb numpy.is_scalar l); [|done]. simpl.
    apply Forall_fmap, Forall_forall. done.
Qed.

End validation_facts.

Section validation.
Context `{Collaborators}.

Lemma rejected_arguments a w :
  Imager.imagepolicy a ∉ ["best"; "full"]
  \/ (exists v, v ∈ Imager.l1_list a ++ Imager.ltsv_list a
                /\ numpy.is_scalar v = false) ->
  Imager.cvforgridvis a w = (Raise (NameError "ArgumentError"), w).
Proof.
  intros Hbad. unfold Imager.cvforgridvis.
  apply bind_raise. unfold Imager.prepare, Imager.raise_ArgumentError.
  destruct (decide (Imager.imagepolicy a ∈ ["best"; "full"])) as [Hin | Hnot].
  2:{ by rewrite bool_decide_eq_false_2. }
  rewrite bool_decide_eq_true_2 by done. simpl.
  destruct Hbad as [? | (v & Hv & Hobj)]; [done|].
  assert (forall l, v ∈ l -> numpy.dtype (numpy.asarray l) = "object") as Hdtype.
  { intros l Hl. unfold numpy.asarray.
    assert (forallb numpy.is_scalar l = false) as Hscalar.
    { apply not_true_iff_false. rewrite forallb_forall. intros Hall.
      apply list_elem_of_In in Hl. rewrite (Hall _ Hl) in Hobj. discriminate. }
    assert (forallb numpy.is_float l = false) as ->.
    { apply not_true_iff_false. rewrite forallb_forall. intros Hall.
      apply list_elem_of_In in Hl. specialize (Hall _ Hl).
      destruct v; discriminate. }
    by rewrite Hscalar. }
  apply elem_of_app in Hv as [Hv | Hv].
  - destruct (decide (numpy.dtype (numpy.asarray (Imager.l1_list a)) = "object"))
      as [|Hn]; [done | by destruct Hn; apply Hdtype].
  - destruct (decide (numpy.dtype (numpy.asarray (Imager.l1_list a)) = "object"));
      [done|].
    destruct (decide (numpy.dtype (numpy.asarray (Imager.ltsv_list a)) = "object"))
      as [|Hn]; [done | by destruct Hn; apply Hdtype].
Qed.

(** Whatever is wrong with the arguments, the search raises before the
    solver is called. *)
Lemma invalid_arguments_fail_before_solver a w :
  Imager.imagepolicy a ∉ ["best"; "full"]
  \/ (exists v, v ∈ Imager.l1_list a ++ Imager.ltsv_list a
                /\ numpy.is_float v = false) ->
  exists e w',
    Imager.cvforgridvis a w = (Raise e, w')
    /\ solver_calls (trace w') = solver_calls (trace w).
Proof.
  intros Hbad.
  destruct (decide (Imager.imagepolicy a ∈ ["best"; "full"])) as [Hin | Hnot].
  2:{ exists (NameError "ArgumentError"), w. split; [|done].
      apply rejected_arguments. by left. }
  destruct Hbad as [? | (v & Hv & Hnon)]; [done|].
  unfold Imager.cvforgridvis.
  destruct (Imager.prepare a w) as [[[[sl1 sltsv] f]|e] w0] eqn:Hprep;
    pose proof (prepare_inv _ _ _ _ Hprep) as (_ & Hcalls & Hok).
  2:{ erewrite bind_raise by exact Hprep. by eauto. }
  erewrite bind_step by exact Hprep.
  destruct (Hok _ _ _ eq_refl) as (-> & -> & Hd1 & Hd2 & _). clear Hok.
  cbv beta iota.
  destruct (Imager.sweep a f (numpy.sorted (numpy.asarray (Imager.l1_list a)))
              (numpy.sorted (numpy.asarray (Imager.ltsv_list a))) w0)
    as [[r|e] w1] eqn:Hsweep.
  2:{ erewrite bind_raise by exact Hsweep.
      apply sweep_non_float in Hsweep as [-> _]; [by eauto|].
      apply elem_of_app in Hv as [Hv | Hv]; [left | right];
        apply sorted_non_float; by eauto. }
  erewrite bind_step by exact Hsweep.
  apply sweep_non_float in Hsweep as [-> Hr].
  2:{ apply elem_of_app in Hv as [Hv | Hv]; [left | right];
        apply sorted_non_float; by eauto. }
  rewrite (Hr _ eq_refl).
  erewrite bind_step by apply finalizecv_eq.
  eexists _, _. split; [reflexivity | done].
Qed.

End validation.

(** C5, as the code has it.  An image policy other than ['best'] and
    ['full'], or a candidate that numpy can only hold as an object, makes
    the search stop at its sanity check, before anything else is done;
    but the exception that reaches the caller is [NameError], because the
    name [ArgumentError] that the check raises is not defined. *)
Theorem invalid_arguments_raise_NameError `{Collaborators} a w :
  Imager.imagepolicy a ∉ ["best"; "full"]
  \/ (exists v, v ∈ Imager.l1_list a ++ Imager.ltsv_list a
                /\ numpy.is_scalar v = false) ->
  Imager.cvforgridvis a w = (Raise (NameError "ArgumentError"), w).
Proof. apply rejected_arguments. Qed.

Lemma invalid_arguments_raise_NameError_witness :
  Demo.search_bad_policy = (Raise (NameError "ArgumentError"), Demo.start)
  /\ Demo.search_bad_object = (Raise (NameError "ArgumentError"), Demo.start).
Proof.
  split.
  - apply (@invalid_arguments_raise_NameError Demo.collaborators
             (Demo.args "worst" None) Demo.start).
    left. intros Hin. repeat (apply elem_of_cons in Hin as [|Hin]; [done|]).
    by apply elem_of_nil in Hin.
  - apply (@invalid_arguments_raise_NameError Demo.collaborators
             (Demo.make_args [PyFloat (flt 1 100); PyNone] [PyFloat (flt 1 100)]
                "image" "full" None) Demo.start).
    right. exists PyNone. split; [|reflexivity].
    simpl. apply elem_of_cons. right. apply elem_of_cons. by left.
Defined.

(** A string among the candidates passes the sanity check and is caught
    by [math.log10] in the first trial, still before the solver. *)
Lemma string_candidate_raises_TypeError :
  Demo.search_bad_string.1 = Raise (TypeError "a float is required")
  /\ solver_calls (trace Demo.search_bad_string.2) = [].
Proof. split; vm_compute; reflexivity. Qed.

(** ** Image files after the search *)

Section retention_facts.
Context `{Collaborators}.

Lemma completed_images_present f v r m r' m' :
  completed f v r m r' m' ->
  (forall name, name ∈ Imager.result_image r -> is_Some (m !! name)) ->
  forall name, name ∈ Imager.result_image r' -> is_Some (m' !! name).
Proof.
  induction 1 as [r m | q1 q2 mse img v r m r' m' _ IH]; [done|].
  intros Hpres. apply IH. simpl. intros name Hin.
  assert (is_Some (<[imagename_of q1 q2 := Pickled img]> m !! name)) as Hname.
  { apply lookup_insert_is_Some.
    apply elem_of_app in Hin as [Hin | ->%list_elem_of_singleton]; [|by left].
    destruct (decide (imagename_of q1 q2 = name)); [by left | right].
    split; [done | by apply Hpres]. }
  destruct f as [path|]; simpl; [|done].
  by apply lookup_alter_is_Some.
Qed.


(** What the selection does to the store: the final image is a copy of
    the best image, and under the ['best'] policy the recorded images are
    gone. *)
Lemma conclude_store a sl1 sltsv r w d w' :
  Imager.conclude a sl1 sltsv r w = (Ok d, w') ->
  exists k best_image content plots,
    first_minimum (Imager.result_mse r) k
    /\ Imager.result_image r !! k = Some best_image
    /\ with_figure a (fs w) !! best_image = Some content
    /\ Forall is_plot plots
    /\ (forall path, path <> Imager.final_imagename a ->
        path ∉ Imager.result_image r ->
        fs w' !! path = with_figure a (fs w) !! path)
    /\ (Imager.final_imagename a ∉ Imager.result_image r ->
        fs w' !! Imager.final_imagename a = Some content)
    /\ (Imager.imagepolicy a = "best" ->
        (forall name, name ∈ Imager.result_image r -> fs w' !! name = None)
        /\ trace w' = trace w ++ plots
             ++ [EvCopy best_image (Imager.final_imagename a)]
             ++ (EvRemove <$> Imager.result_image r))
    /\ (Imager.imagepolicy a = "full" ->
        (forall name, name ∈ Imager.result_image r ->
           is_Some (with_figure a (fs w) !! name) -> is_Some (fs w' !! name))
        /\ trace w' = trace w ++ plots
             ++ [EvCopy best_image (Imager.final_imagename a)]).
Proof.
  intros Hrun. apply conclude_inv in Hrun
    as (k & best_image & best_L1 & best_Ltsv & content & plots
        & Hmin & Himage & _ & _ & _ & Hbest & Hne & Hplots & Hpolicy).
  exists k, best_image, content, plots.
  do 4 (split; [done|]).
  destruct Hpolicy as [[Hfull ->] | [Hbestp Hrm]]; simpl.
  - split; [|split; [|split]].
    + intros path Hpath _. by apply lookup_insert_ne.
    + intros _. apply lookup_insert_eq.
    + rewrite Hfull. discriminate.
    + intros _. split; [|done]. intros name _ Hpres.
      apply lookup_insert_is_Some.
      destruct (decide (Imager.final_imagename a = name)); auto.
  - apply remove_images_Ok in Hrm as (_ & _ & Hgone & Hkeep & Htr & _).
    simpl in *. split; [|split; [|split]].
    + intros path Hpath Hnot. rewrite Hkeep by done.
      by apply lookup_insert_ne.
    + intros Hnot. rewrite Hkeep by done. apply lookup_insert_eq.
    + intros _. split; [done|]. by rewrite Htr, <- !app_assoc.
    + rewrite Hbestp. discriminate.
Qed.

Lemma with_figure_is_Some a m path :
  is_Some (m !! path) -> is_Some (with_figure a m !! path).
Proof.
  unfold with_figure. destruct (Imager.figfile a) as [name|]; [|done].
  destruct (Imager.summarize a); [|done]. intros Hpath.
  apply lookup_insert_is_Some.
  destruct (decide (name = path)); [by left | by right].
Qed.

(** The retention policies when the final image has a name of its own.
    Under ['best'] none of the trial images is left and the final image
    holds the content of the best image; the copy is made before the
    first removal.  Under ['full'] every trial image is still there, and
    the final image too.  The best image is read after the summary figure
    is saved, and the paths are those of the file store: two spellings
    of one file count as two paths here. *)
Lemma retention_without_name_clash a w d w' :
  Imager.cvforgridvis a w = (Ok d, w') ->
  exists sl1 sltsv f w0 r w1 k best_image content before,
    Imager.prepare a w = (Ok (sl1, sltsv, f), w0)
    /\ Imager.sweep a f sl1 sltsv w0 = (Ok r, w1)
    /\ first_minimum (Imager.result_mse r) k
    /\ Imager.result_image r !! k = Some best_image
    /\ with_figure a (fs w1) !! best_image = Some content
    /\ (Imager.final_imagename a ∉ Imager.result_image r ->
        fs w' !! Imager.final_imagename a = Some content
        /\ (Imager.imagepolicy a = "best" ->
            (forall name, name ∈ Imager.result_image r -> fs w' !! name = None)
            /\ trace w' = before
                 ++ [EvCopy best_image (Imager.final_imagename a)]
                 ++ (EvRemove <$> Imager.result_image r))
        /\ (Imager.imagepolicy a = "full" ->
            (forall name, name ∈ Imager.result_image r -> is_Some (fs w' !! name))
            /\ trace w' = before
                 ++ [EvCopy best_image (Imager.final_imagename a)])).
Proof.
  intros Hrun. apply cvforgridvis_inv in Hrun
    as (sl1 & sltsv & f & w0 & r & w1 & Hprep & Hsweep & Hconc).
  destruct (sweep_inv _ _ _ _ _ _ _ Hsweep) as [_ Hdone].
  destruct (Hdone _ eq_refl) as [_ Hcomp].
  apply conclude_store in Hconc
    as (k & best_image & content & plots & Hmin & Himage & Hbest & _
        & _ & Hfinal & Hbestp & Hfullp). simpl in *.
  exists sl1, sltsv, f, w0, r, w1, k, best_image, content, (trace w1 ++ plots).
  do 5 (split; [done|]). intros Hclash. split; [by apply Hfinal|]. split.
  - intros Hpol. destruct (Hbestp Hpol) as [Hgone Htr].
    split; [done|]. by rewrite Htr, <- !app_assoc.
  - intros Hpol. destruct (Hfullp Hpol) as [Hkeep Htr]. split.
    + intros name Hin. apply Hkeep; [done|]. apply with_figure_is_Some.
      eapply completed_images_present; [exact Hcomp | | exact Hin].
      by intros ? ?%elem_of_nil.
    + by rewrite Htr, <- !app_assoc.
Qed.

End retention_facts.

(** C6 fails on the code when the final image is given the name of a
    trial image.  With image prefix [L1_-2_Ltsv_-2] the final image
    [L1_-2_Ltsv_-2.pickle] is also the image of the trial at (1e-2, 1e-2);
    the best image, of the trial at (1e-3, 1e-2), is copied over it, and
    the cleanup of the ['best'] policy then removes it with the other
    trial images: the search completes and no image is left. *)
Theorem best_policy_loses_image_on_name_clash :
  let d := Demo.returned ∅ Demo.search_clash in
  let w' := Demo.final Demo.search_clash in
  Demo.search_clash = (Ok d, w')
  /\ d !! "L1" = Some (PyFloat (flt 1 1000))
  /\ d !! "Ltsv" = Some (PyFloat (flt 1 100))
  /\ fs w' !! "L1_-2_Ltsv_-2.pickle" = None
  /\ fs w' = ∅
  /\ List.filter (fun e => match e with
                          | EvCopy _ _ | EvRemove _ => true
                          | _ => false
                          end) (trace w')
     = [EvCopy "L1_-3_Ltsv_-2.pickle" "L1_-2_Ltsv_-2.pickle";
        EvRemove "L1_-2_Ltsv_-2.pickle"; EvRemove "L1_-3_Ltsv_-2.pickle";
        EvRemove "L1_-2_Ltsv_-1.pickle"; EvRemove "L1_-3_Ltsv_-1.pickle"].
Proof.
  intros d w'.
  split; [vm_compute; reflexivity|].
  split; [vm_compute; reflexivity|].
  split; [vm_compute; reflexivity|].
  split; [vm_compute; reflexivity|].
  split; vm_compute; reflexivity.
Qed.

(** ** The data file *)


Section datafile_facts.
Context `{Collaborators}.



Lemma datalines_length L1s Ltsvs mses :
  length L1s = length Ltsvs -> length L1s = length mses ->
  length (datalines L1s Ltsvs mses) = length L1s.
Proof.
  revert Ltsvs mses.
  induction L1s as [|x L1s IH]; intros [|y Ltsvs] [|z mses]; simpl; try lia.
  intros. f_equal. apply IH; lia.
Qed.










End datafile_facts.



